(** * Bangumi -> MySQL pipeline: the incremental reconciler and the paged fetcher

    A shallow embedding of
    - [implement_incremental_load] (data_loading_to_mysql_database.py), the
      set-based diff that rebuilds the incremental table from a full snapshot;
    - [fetch_category_total], [fetch_single_category] and the category loop of
      [collect_all_data] (bangumi_data_ingestion.py), the retrying fetchers.

    DataFrames are lists of rows, key sets are [gset Z], the database is a
    [gmap] from table names to frames.  The HTTP session is an oracle giving
    the outcome of the n-th request; sleeps and requests are logged. *)

From Stdlib Require Import ZArith Lia.
From stdpp Require Import base option list gmap sets strings pretty.

(* stdpp's solvers clear hypotheses by name; the notice is of no interest here. *)
#[local] Set Warnings "-clear-no-such-hyp".

Open Scope Z_scope.

(** ** Part I: the incremental reconciler *)

Module Reconciler.

(** A cell of a column other than the key. *)
Inductive Cell :=
| CNull
| CInt (z : Z)
| CStr (s : string).

(** One row of [fact_view_logs]: the [subject_id] column ([None] is NA/NULL)
    and the remaining columns by name. *)
Record Row := mkRow {
  subject_id : option Z;
  other_columns : list (string * Cell)
}.

Definition DataFrame := list Row.

(** [df[id_column].notna()] and [df[id_column].isna()], row by row. *)
Definition notna (r : Row) : bool :=
  match subject_id r with Some _ => true | None => false end.

Definition isna (r : Row) : bool :=
  match subject_id r with Some _ => false | None => true end.

(** [df[id_column].isin(ids)], row by row. *)
Definition isin (ids : gset Z) (r : Row) : bool :=
  match subject_id r with
  | Some k => bool_decide (k ∈ ids)
  | None => false
  end.

(** [set(df[id_column])] on a frame whose keys are all present. *)
Definition id_set (df : DataFrame) : gset Z :=
  list_to_set (omap subject_id df).

(** [df.empty]: the frame has no row. *)
Definition is_empty (df : DataFrame) : bool :=
  match df with [] => true | _ :: _ => false end.

Section Diff.
Variables df_source df_target : DataFrame.

Definition df_source_with_id : DataFrame := List.filter notna df_source.
Definition df_source_na_id : DataFrame := List.filter isna df_source.
Definition df_target_with_id : DataFrame := List.filter notna df_target.
Definition df_target_na_id : DataFrame := List.filter isna df_target.

Definition source_id_set : gset Z := id_set df_source_with_id.
Definition target_id_set : gset Z := id_set df_target_with_id.

Definition insert_ids : gset Z := source_id_set ∖ target_id_set.
Definition delete_ids : gset Z := target_id_set ∖ source_id_set.
Definition common_ids : gset Z := source_id_set ∩ target_id_set.

(** The target rows that survive both removals (lines 253 and 256). *)
Definition df_combined : DataFrame :=
  List.filter (fun r => negb (isin common_ids r))
    (List.filter (fun r => negb (isin delete_ids r)) df_target_with_id).

Definition df_new : DataFrame := List.filter (isin insert_ids) df_source_with_id.
Definition df_updated : DataFrame := List.filter (isin common_ids) df_source_with_id.

(** The frame written back to the target table: the initial-load fast path
    when the target is empty, the concatenation of line 265 otherwise. *)
Definition reconcile : DataFrame :=
  if is_empty df_target then df_source
  else df_combined ++ df_new ++ df_updated ++ df_source_na_id.

End Diff.

(** The store: table name to frame. *)
Definition Database := gmap string DataFrame.

(** [implement_incremental_load source_table target_table]: a missing source
    table makes [read_sql] raise (the error is re-raised: [None]); a missing
    target table is read as the empty frame; the result replaces the target
    table. *)
Definition implement_incremental_load
    (source_table target_table : string) (db : Database) : option Database :=
  match db !! source_table with
  | None => None
  | Some df_source =>
      let df_target := default [] (db !! target_table) in
      Some (<[target_table := reconcile df_source df_target]> db)
  end.


(** Every non-null key occurs at most once among the rows of a frame. *)
Definition unique_keys (df : DataFrame) : Prop := NoDup (omap subject_id df).

End Reconciler.

(** ** Part II: the retrying fetchers *)

Module Fetcher.

Definition LIMIT : Z := 100.
Definition MAX_RETRIES : nat := 3.
(** [RETRY_BACKOFF = 1.0] seconds; all durations are kept in milliseconds. *)
Definition RETRY_BACKOFF : Z := 1000.
Definition max_consecutive_failures : Z := 3.

(** One element of the ["data"] array of a collections page. *)
Record Item := mkItem {
  item_subject_id : option Z;
  item_name : string
}.

(** The JSON object of a response: the ["total"] and ["data"] keys, each
    possibly absent. *)
Record Payload := mkPayload {
  p_total : option Z;
  p_data : option (list Item)
}.

(** What one [session.get] gives: a response with its status code and body
    ([None]: the body is not a JSON object, so [resp.json()] or
    [payload.get] raises), or one of the exceptions the code tells apart. *)
Inductive Outcome :=
| Response (status_code : Z) (body : option Payload)
| ConnectionError
| Timeout
| RequestException
| OtherException.

(** [resp.raise_for_status()] raises [HTTPError] on 4xx and 5xx. *)
Definition raises_for_status (status_code : Z) : bool :=
  (400 <=? status_code) && (status_code <? 600).

(** The session as seen by one run: the outcome of the n-th request. *)
Definition Session := nat -> Outcome.

Inductive Event :=
| Request (subject_type collection_type limit offset : Z)
| Sleep (ms : Z).

(** The observable side: how many requests were issued, and the
    chronological log of requests and sleeps. *)
Record World := mkWorld {
  clock : nat;
  log : list Event
}.

Definition get (sess : Session) (rq : Event) (w : World) : Outcome * World :=
  (sess (clock w), mkWorld (S (clock w)) (log w ++ [rq])).

Definition sleep (ms : Z) (w : World) : World :=
  mkWorld (clock w) (log w ++ [Sleep ms]).

(** [RETRY_BACKOFF * (2 ** attempt)] *)
Definition wait_time (attempt : nat) : Z := RETRY_BACKOFF * 2 ^ Z.of_nat attempt.

(** The two [except] branches that retry. *)
Definition retryable (o : Outcome) : bool :=
  match o with
  | ConnectionError | Timeout => true
  | _ => false
  end.

(** *** fetch_category_total *)

Section Total.
Variable sess : Session.
Variables subject_type collection_type : Z.

(** The body of [for attempt in range(MAX_RETRIES)]; falling out of the loop
    is the final [return 0]. *)
Fixpoint total_attempts (attempts : list nat) (w : World) : Z * World :=
  match attempts with
  | [] => (0, w)
  | attempt :: rest =>
      let '(out, w1) := get sess (Request subject_type collection_type 1 0) w in
      match out with
      | Response status_code body =>
          if raises_for_status status_code then (0, w1)
          else match body with
               | Some payload => (default 0 (p_total payload), w1)
               | None => (0, w1)
               end
      | ConnectionError | Timeout =>
          if (attempt <? MAX_RETRIES - 1)%nat
          then total_attempts rest (sleep (wait_time attempt) w1)
          else (0, w1)
      | RequestException | OtherException => (0, w1)
      end
  end.

Definition fetch_category_total (w : World) : Z * World :=
  total_attempts (seq 0 MAX_RETRIES) w.

End Total.

(** *** get_all_category_totals *)

Definition SUBJECT_TYPES : list Z := [1; 2; 3].
Definition COLLECTION_TYPES : list Z := [1; 2; 3; 4].

(** *** fetch_single_category *)

Record CategoryStats := mkStats {
  subject_type : Z;
  collection_type : Z;
  total_items : Z;
  fetched_items : Z;
  pages_fetched : Z
}.

(** The locals of [fetch_single_category] together with the mutated stats
    object and the world. *)
Record FetchState := mkFetch {
  all_items : list Item;
  offset : Z;
  consecutive_failures : Z;
  stats : CategoryStats;
  world : World
}.

Definition set_world (s : FetchState) (w : World) : FetchState :=
  mkFetch (all_items s) (offset s) (consecutive_failures s) (stats s) w.

Definition set_offset (s : FetchState) (o : Z) : FetchState :=
  mkFetch (all_items s) o (consecutive_failures s) (stats s) (world s).

Definition set_failures (s : FetchState) (n : Z) : FetchState :=
  mkFetch (all_items s) (offset s) n (stats s) (world s).

(** Lines 200-203: extend the accumulator, bump the counters, reset the
    consecutive failures. *)
Definition record_page (s : FetchState) (items : list Item) : FetchState :=
  let st := stats s in
  mkFetch (all_items s ++ items) (offset s) 0
    (mkStats (subject_type st) (collection_type st) (total_items st)
       (fetched_items st + Z.of_nat (length items)) (pages_fetched st + 1))
    (world s).

Definition page_request (s : FetchState) : Event :=
  Request (subject_type (stats s)) (collection_type (stats s)) LIMIT (offset s).

Section Paged.
Variable sess : Session.

(** The inner [for attempt in range(MAX_RETRIES)] of one outer iteration.
    The first component is [Some items] when [success] ends up [True]
    ([items] as last assigned) and [None] when it stays [False]. *)
Fixpoint page_attempts (attempts : list nat) (s : FetchState)
  : option (list Item) * FetchState :=
  match attempts with
  | [] => (None, s)
  | attempt :: rest =>
      let '(out, w1) := get sess (page_request s) (world s) in
      match out with
      | Response status_code body =>
          if status_code =? 429
          then page_attempts rest (set_world s (sleep 10000 w1))
          else if raises_for_status status_code then (None, set_world s w1)
          else match body with
               | None => (None, set_world s w1)
               | Some payload =>
                   let items := default [] (p_data payload) in
                   match items with
                   | [] => (Some items, set_world s w1)
                   | _ :: _ =>
                       let s2 := record_page (set_world s w1) items in
                       if offset s2 + LIMIT >=? total_items (stats s2)
                       then (Some items, s2)
                       else (Some items,
                             set_world (set_offset s2 (offset s2 + LIMIT))
                               (sleep 500 (world s2)))
                   end
               end
      | ConnectionError | Timeout =>
          page_attempts rest
            (set_world s
               (if (attempt <? MAX_RETRIES - 1)%nat
                then sleep (wait_time attempt) w1 else w1))
      | RequestException | OtherException => (None, set_world s w1)
      end
  end.

Inductive Step :=
| Break (s : FetchState)
| Continue (s : FetchState).

(** One pass through the body of [while True] (lines 170-256). *)
Definition outer_iteration (s : FetchState) : Step :=
  let '(success, s1) := page_attempts (seq 0 MAX_RETRIES) s in
  match success with
  | None =>
      let s2 := set_failures s1 (consecutive_failures s1 + 1) in
      if consecutive_failures s2 >=? max_consecutive_failures
      then Break s2
      else Continue (set_offset s2 (offset s2 + LIMIT))
  | Some items =>
      match items with
      | [] => Break s1
      | _ :: _ =>
          if offset s1 + LIMIT >=? total_items (stats s1)
          then Break s1 else Continue s1
      end
  end.

(** The [while True] loop under a bound on its passes: the final state with
    the number of passes made, or [None] when the bound is too small. *)
Fixpoint fetch_loop (fuel : nat) (s : FetchState) : option (nat * FetchState) :=
  match fuel with
  | O => None
  | S fuel' =>
      match outer_iteration s with
      | Break s' => Some (1%nat, s')
      | Continue s' =>
          match fetch_loop fuel' s' with
          | Some (n, s'') => Some (S n, s'')
          | None => None
          end
      end
  end.

End Paged.

Definition ceil_div (a b : Z) : Z := (a + b - 1) / b.

(** Passes that always suffice for a category of the given expected total. *)
Definition loop_bound (total : Z) : nat := (Z.to_nat (ceil_div total LIMIT) + 3)%nat.

Definition init_state (st : CategoryStats) (w : World) : FetchState :=
  mkFetch [] 0 0 st w.

(** [fetch_single_category]: the returned list, with the stats object and
    the world as it leaves them. *)
Definition fetch_single_category (sess : Session) (st : CategoryStats) (w : World)
  : option (list Item * CategoryStats * World) :=
  match fetch_loop sess (loop_bound (total_items st)) (init_state st w) with
  | Some (_, s) => Some (all_items s, stats s, world s)
  | None => None
  end.

Section Totals.
Variable sess : Session.

(** The nested loops over [SUBJECT_TYPES] and [COLLECTION_TYPES], one key at
    a time: resolve the total, create the stats, sleep 0.3 s. *)
Fixpoint totals_loop (keys : list (Z * Z)) (w : World)
  : list (Z * Z * CategoryStats) * World :=
  match keys with
  | [] => ([], w)
  | (st, ct) :: rest =>
      let '(total, w1) := fetch_category_total sess st ct w in
      let '(all_stats, w2) := totals_loop rest (sleep 300 w1) in
      (((st, ct), mkStats st ct total 0 0) :: all_stats, w2)
  end.

Definition get_all_category_totals (w : World)
  : list (Z * Z * CategoryStats) * World :=
  totals_loop (list_prod SUBJECT_TYPES COLLECTION_TYPES) w.

End Totals.

(** *** The category loop of collect_all_data *)

Section Collect.
(** The row projector is a collaborator: any function of the category and
    the item. *)
Variables RawRow AnalyticsRow : Type.
Variable raw_row : Z -> Z -> Item -> RawRow.
Variable analytics_row : Z -> Z -> Item -> AnalyticsRow.
Variable sess : Session.

Record Collected := mkCollected {
  raw_rows : list RawRow;
  analytics_rows : list AnalyticsRow;
  seen_stats : list (Z * Z * CategoryStats);
  c_world : World
}.

(** One pass of [for (st, ct), stats in all_stats.items()]. *)
Definition collect_category (key : Z * Z) (st : CategoryStats) (acc : Collected)
  : option Collected :=
  if total_items st =? 0
  then Some (mkCollected (raw_rows acc) (analytics_rows acc)
               (seen_stats acc ++ [(key, st)]) (c_world acc))
  else match fetch_single_category sess st (c_world acc) with
       | None => None
       | Some (collections, st', w') =>
           Some (mkCollected
                   (raw_rows acc ++ map (raw_row key.1 key.2) collections)
                   (analytics_rows acc ++ map (analytics_row key.1 key.2) collections)
                   (seen_stats acc ++ [(key, st')]) w')
       end.

Fixpoint collect_loop (all_stats : list (Z * Z * CategoryStats)) (acc : Collected)
  : option Collected :=
  match all_stats with
  | [] => Some acc
  | (key, st) :: rest =>
      match collect_category key st acc with
      | None => None
      | Some acc' => collect_loop rest acc'
      end
  end.

Definition collect_all_data (all_stats : list (Z * Z * CategoryStats)) (w : World)
  : option Collected :=
  collect_loop all_stats (mkCollected [] [] [] w).

End Collect.

Arguments mkCollected {RawRow AnalyticsRow}.
Arguments collect_category {RawRow AnalyticsRow}.
Arguments collect_loop {RawRow AnalyticsRow}.
Arguments collect_all_data {RawRow AnalyticsRow}.

(** *** Auxiliary notions for the properties *)

(** The answer is a response with status 429. *)
Definition rate_limited (o : Outcome) : bool :=
  match o with
  | Response status_code _ => status_code =? 429
  | _ => false
  end.

(** The outcomes [fetch_category_total] answers with zero at once: an error
    status, a body that is no JSON object, any other exception. *)
Definition non_retryable_error (o : Outcome) : bool :=
  match o with
  | Response status_code body =>
      raises_for_status status_code || bool_decide (body = None)
  | ConnectionError | Timeout => false
  | RequestException | OtherException => true
  end.

(** The state after a 429 answer and its cooldown: only the world moved. *)
Definition after_429 (s : FetchState) : FetchState :=
  set_world s
    (mkWorld (S (clock (world s))) (log (world s) ++ [page_request s; Sleep 10000])).


(** The state after a page was given up: one more consecutive failure. *)
Definition failed_page (s1 : FetchState) : FetchState :=
  set_failures s1 (consecutive_failures s1 + 1).

(** The state after a page was skipped. *)
Definition skipped_page (s1 : FetchState) : FetchState :=
  set_offset (failed_page s1) (offset s1 + LIMIT).

(** The requests and sleeps of a run of failed, retried attempts. *)
Fixpoint backoff_log (rq : Event) (attempts : list nat) : list Event :=
  match attempts with
  | [] => []
  | attempt :: rest => rq :: Sleep (wait_time attempt) :: backoff_log rq rest
  end.

(** What [fetch_category_total] returns on an outcome it does not retry. *)
Definition answer (o : Outcome) : Z :=
  match o with
  | Response status_code (Some payload) =>
      if raises_for_status status_code then 0 else default 0 (p_total payload)
  | _ => 0
  end.

(** Passes of the loop that can still move on after a fetched page: the
    offsets [o], [o + LIMIT], ... with [o + 2 * LIMIT < total]. *)
Definition pending_pages (s : FetchState) : Z :=
  ceil_div (total_items (stats s) - 2 * LIMIT - offset s) LIMIT.

(** A bound on the passes the loop can still make from a state. *)
Definition measure (s : FetchState) : nat :=
  if 0 <? pending_pages s
  then (Z.to_nat (pending_pages s) + 3)%nat
  else Nat.max 1 (3 - Z.to_nat (consecutive_failures s)).

End Fetcher.

(** ** Concrete frames used in the examples *)

Module Scenarios.
Import Reconciler.

Definition row (k : Z) (v : Z) : Row := mkRow (Some k) [("score"%string, CInt v)].
Definition keyless (v : Z) : Row := mkRow None [("score"%string, CInt v)].

(** The spec's scenario: previous target {A:1, B:2}, source {A:1, C:3}. *)
Definition scenario_target : DataFrame := [row 1 1; row 2 2].
Definition scenario_source : DataFrame := [row 1 1; row 3 3].

(** A source that repeats key 7, against a target that holds it once. *)
Definition dup_source : DataFrame := [row 7 1; row 7 2].
Definition dup_target : DataFrame := [row 7 1].

(** Keyed and keyless rows interleaved in the source. *)
Definition interleaved_source : DataFrame := [row 1 1; keyless 10; row 3 3].
Definition interleaved_target : DataFrame := [row 1 0].

(** Keyless rows on both sides. *)
Definition mixed_source : DataFrame := [keyless 10; row 1 1; keyless 11].
Definition mixed_target : DataFrame := [keyless 20; row 1 0; row 2 2].

(** Sessions. *)
Import Fetcher.

Definition item1 : Item := mkItem (Some 1) "a".
Definition page1 : Outcome := Response 200 (Some (mkPayload (Some 250) (Some [item1]))).

(** Three 429 answers, then pages. *)
Definition limited_thrice : Session :=
  λ n, if (n <? 3)%nat then Response 429 None else page1.

(** One 429 answer, then pages. *)
Definition limited_once : Session :=
  λ n, if (n <? 1)%nat then Response 429 None else page1.

(** A page, then the network is down. *)
Definition down_after_one : Session :=
  λ n, if (n <? 1)%nat then page1 else ConnectionError.

Definition always_down : Session := λ _, ConnectionError.

(** A well-formed answer that declares a negative total. *)
Definition negative_total : Session :=
  λ _, Response 200 (Some (mkPayload (Some (-1)) (Some []))).

(** Two timeouts, then a server error. *)
Definition flaky_then_500 : Session :=
  λ n, if (n <? 2)%nat then Timeout else Response 500 None.

Definition anime_watched (total : Z) : CategoryStats := mkStats 2 2 total 0 0.
Definition fresh : World := mkWorld 0 [].

(** The fetch of a category of 250 items, about to start. *)
Definition start_250 : FetchState := init_state (anime_watched 250) fresh.

End Scenarios.

(** ** What the reconciler logs *)

Module ReconcilerLog.
Import Reconciler.

Section Logged.
Variables df_source df_target : DataFrame.

(** [len(df_combined)] of the final message, on the diff path. *)
Definition final_record_count : nat :=
  length (df_combined df_source df_target ++ df_new df_source df_target
            ++ df_updated df_source df_target ++ df_source_na_id df_source).

(** [len(insert_ids) - len(delete_ids)] of the last message. *)
Definition net_change : Z :=
  Z.of_nat (size (insert_ids df_source df_target))
  - Z.of_nat (size (delete_ids df_source df_target)).

End Logged.

End ReconcilerLog.

(** ** Frames on their way into MySQL *)

Module Frames.

(** A cell of a frame, as far as the preparation tells cells apart: null
    ([None], NaN), a Python list (the ["tags"] column holds lists of names),
    or any other scalar. *)
Inductive Value :=
| VNone
| VInt (z : Z)
| VStr (s : string)
| VList (l : list string).

Definition Column := list Value.

(** A frame by columns, in column order. *)
Definition Frame := list (string * Column).

Definition columns (df : Frame) : list string := map fst df.

Definition notna (v : Value) : bool :=
  match v with VNone => false | _ => true end.

(** [isinstance(x, list)] *)
Definition is_list (v : Value) : bool :=
  match v with VList _ => true | _ => false end.

(** [df.drop(labels, axis=1)]: a label that is no column raises [KeyError]. *)
Definition drop (labels : list string) (df : Frame) : option Frame :=
  if forallb (λ l, bool_decide (l ∈ columns df)) labels
  then Some (List.filter (λ c, negb (bool_decide (c.1 ∈ labels))) df)
  else None.

Definition columns_to_drop : list string :=
  ["director"; "studio"; "country"; "publisher"; "author";
   "tag_1_name"; "tag_1_count"; "tag_2_name"; "tag_2_count";
   "tag_3_name"; "tag_3_count"; "tag_4_name"; "tag_4_count";
   "tag_5_name"; "tag_5_count"]%string.

(** Lines 137-141 of [load_bangumi_data_to_mysql]: drop the columns of the
    list that exist; [None] is a [KeyError]. *)
Definition drop_unnecessary (df_analytics : Frame) : option Frame :=
  let existing_columns :=
    List.filter (λ col, bool_decide (col ∈ columns df_analytics)) columns_to_drop in
  match existing_columns with
  | [] => Some df_analytics
  | _ :: _ => drop existing_columns df_analytics
  end.

Section Prepare.
(** [json.dumps(x, ensure_ascii=False)] on a list of strings. *)
Variable dumps : list string → string.
(** [column.dtype == 'object']: the dtype pandas has inferred. *)
Variable is_object : Column → bool.

(** The lambda applied to every cell of a list column. *)
Definition convert (x : Value) : Value :=
  match x with VList l => VStr (dumps l) | _ => x end.

(** The body of the loop over the columns: the sample is the first
    non-null cell. *)
Definition prepare_column (c : Column) : Column :=
  if is_object c then
    match List.filter notna c with
    | sample :: _ => if is_list sample then map convert c else c
    | [] => c
    end
  else c.

Definition prepare_dataframe_for_mysql (df : Frame) : Frame :=
  map (λ col, (col.1, prepare_column col.2)) df.

End Prepare.

(** What pandas guarantees of the dtype: a column holding a list is an
    object column. *)
Definition dtype_sound (is_object : Column → bool) : Prop :=
  ∀ c l, VList l ∈ c → is_object c = true.

(** The first non-null cell of a column, if any. *)
Definition sample (c : Column) : option Value := head (List.filter notna c).

(** Examples: a dtype that calls every column with a string or a list an
    object column, and a comma-separated rendering of lists. *)
Definition dtype_example (c : Column) : bool :=
  existsb (λ v, match v with VStr _ | VList _ => true | _ => false end) c.
Definition dumps_example (l : list string) : string := String.concat ", " l.
Definition tags_column : Column := [VNone; VList ["a"; "b"]; VList []]%string.
Definition mixed_column : Column := [VNone; VStr "x"; VList ["a"]]%string.

End Frames.

(** ** The top tags of a subject *)

Module Projector.

Section Tags.
(** The JSON values the tag objects carry; the function passes them on. *)
Variable V : Type.

(** An element of the ["tags"] array: an object with its ["name"] and
    ["count"] entries ([None]: absent or null), or anything else. *)
Inductive Tag :=
| TagDict (name count : option V)
| TagOther.

(** [f"tag_{i+1}_name"] and [f"tag_{i+1}_count"] *)
Definition tag_key (i : nat) (field : string) : string :=
  "tag_" +:+ pretty (i + 1)%nat +:+ "_" +:+ field.

(** One pass of [for i in range(top_n)]: the two entries it sets. *)
Definition tag_entries (tags : list Tag) (i : nat) : list (string * option V) :=
  match tags !! i with
  | Some (TagDict name count) =>
      [(tag_key i "name", name); (tag_key i "count", count)]
  | Some TagOther | None =>
      [(tag_key i "name", None); (tag_key i "count", None)]
  end.

(** The dict returned, as its entries in insertion order. *)
Definition extract_top_tags (tags : list Tag) (top_n : nat)
  : list (string * option V) :=
  concat (map (tag_entries tags) (seq 0 top_n)).

(** [tags[i].get("name")] and [tags[i].get("count")] where there is a tag
    object at [i], [None] otherwise. *)
Definition name_at (tags : list Tag) (i : nat) : option V :=
  match tags !! i with Some (TagDict name _) => name | _ => None end.

Definition count_at (tags : list Tag) (i : nat) : option V :=
  match tags !! i with Some (TagDict _ count) => count | _ => None end.

End Tags.

Arguments TagDict {V}.
Arguments TagOther {V}.
Arguments tag_entries {V}.
Arguments extract_top_tags {V}.
Arguments name_at {V}.
Arguments count_at {V}.

End Projector.

(** ** The Notion side *)

Module Notion.

(** What one call of [requests] gives: a response with its status code and
    body, a [ConnectionError] (an [SSLError] is one), or any other
    exception (a read timeout, for one). *)
Inductive Answer (B : Type) :=
| Status (status_code : Z) (body : B)
| ConnectionError
| OtherError.

Arguments Status {B}.
Arguments ConnectionError {B}.
Arguments OtherError {B}.

Inductive NEvent :=
| Sent
| Slept (ms : Z).

Record NWorld := mkNWorld {
  n_clock : nat;
  n_log : list NEvent
}.

Definition sent (w : NWorld) : NWorld :=
  mkNWorld (S (n_clock w)) (n_log w ++ [Sent]).

Definition n_sleep (ms : Z) (w : NWorld) : NWorld :=
  mkNWorld (n_clock w) (n_log w ++ [Slept ms]).

Definition max_retries : nat := 3.

(** [time.sleep(2 ** attempt)], in milliseconds. *)
Definition backoff (attempt : nat) : Z := 1000 * 2 ^ Z.of_nat attempt.

Fixpoint n_slept (evs : list NEvent) : Z :=
  match evs with
  | [] => 0
  | Slept ms :: rest => ms + n_slept rest
  | Sent :: rest => n_slept rest
  end.

(** *** soft_delete_record *)

Section SoftDelete.
Variable sess : nat → Answer unit.

Fixpoint soft_delete_attempts (attempts : list nat) (w : NWorld) : bool * NWorld :=
  match attempts with
  | [] => (false, w)
  | attempt :: rest =>
      match sess (n_clock w) with
      | Status status_code _ => (status_code =? 200, sent w)
      | ConnectionError =>
          if (attempt <? max_retries - 1)%nat
          then soft_delete_attempts rest (n_sleep (backoff attempt) (sent w))
          else (false, sent w)
      | OtherError => (false, sent w)
      end
  end.

Definition soft_delete_record (w : NWorld) : bool * NWorld :=
  soft_delete_attempts (seq 0 max_retries) w.

End SoftDelete.

(** *** get_existing_records *)

(** What is kept of a page: its id and its properties. *)
Record PageRec := mkPageRec {
  page_id : string;
  properties : string
}.

(** A page of the results: the content of its [subject_id] title with what
    is kept of it, or [None] for a page that has no such title or that
    cannot be read (it is skipped). *)
Definition Page := option (string * PageRec).

(** The JSON object of a query response, absent keys at their defaults. *)
Record QueryResult := mkQuery {
  results : list Page;
  has_more : bool;
  next_cursor : option string
}.

Record QState := mkQState {
  all_records : gmap string PageRec;
  q_has_more : bool;
  start_cursor : option string;
  q_world : NWorld
}.

(** How the inner loop of one page ends. *)
Inductive Inner :=
| IReturn (records : gmap string PageRec)
| IRaise
| INext (st : QState).

Definition add_page (records : gmap string PageRec) (p : Page)
  : gmap string PageRec :=
  match p with
  | Some (subject_id, rec) => <[subject_id := rec]> records
  | None => records
  end.

Section Query.
(** The body is [None] when it is no JSON object. *)
Variable sess : nat → Answer (option QueryResult).

Fixpoint query_attempts (attempts : list nat) (st : QState) : Inner :=
  match attempts with
  | [] => INext st
  | attempt :: rest =>
      let w1 := sent (q_world st) in
      match sess (n_clock (q_world st)) with
      | Status status_code body =>
          if negb (status_code =? 200) then IReturn ∅
          else match body with
               | None => IRaise
               | Some data =>
                   INext (mkQState (foldl add_page (all_records st) (results data))
                            (has_more data) (next_cursor data) w1)
               end
      | ConnectionError =>
          if (attempt <? max_retries - 1)%nat
          then query_attempts rest
                 (mkQState (all_records st) (q_has_more st) (start_cursor st)
                    (n_sleep (backoff attempt) w1))
          else INext (mkQState (all_records st) false (start_cursor st) w1)
      | OtherError => IRaise
      end
  end.

(** What the function does in the end: it returns a dict or lets an
    exception escape. *)
Inductive QueryOutcome :=
| Returned (records : gmap string PageRec)
| Raised.

(** [while has_more], under a bound on its passes ([None]: bound reached). *)
Fixpoint query_loop (fuel : nat) (st : QState) : option QueryOutcome :=
  if q_has_more st then
    match fuel with
    | O => None
    | S fuel' =>
        match query_attempts (seq 0 max_retries) st with
        | IReturn records => Some (Returned records)
        | IRaise => Some Raised
        | INext st' => query_loop fuel' st'
        end
    end
  else Some (Returned (all_records st)).

Definition get_existing_records (fuel : nat) (w : NWorld) : option QueryOutcome :=
  query_loop fuel (mkQState ∅ true None w).

End Query.

(** *** format_property and insert_data_into_database *)

(** A number as Notion receives it. *)
Inductive Num (F : Type) :=
| NumInt (z : Z)
| NumFloat (f : F).

Arguments NumInt {F}.
Arguments NumFloat {F}.

(** A cell of the analytics frame: null ([None], NaN, NaT), an integer, a
    float, a string or a timestamp. *)
Inductive Cell (F T : Type) :=
| NNull
| NInt (z : Z)
| NFloat (f : F)
| NStr (s : string)
| NTime (t : T).

Arguments NNull {F T}.
Arguments NInt {F T}.
Arguments NFloat {F T}.
Arguments NStr {F T}.
Arguments NTime {F T}.

(** A formatted property. *)
Inductive Property (F : Type) :=
| PTitle (content : string)
| PRichText (content : string)
| PNumber (n : Num F)
| PDate (start : string).

Arguments PTitle {F}.
Arguments PRichText {F}.
Arguments PNumber {F}.
Arguments PDate {F}.

(** The text of a title or rich text property is within Notion's limit of
    2000 characters. *)
Definition short_text {F : Type} (p : Property F) : Prop :=
  match p with
  | PTitle content | PRichText content => (String.length content ≤ 2000)%nat
  | PNumber _ | PDate _ => True
  end.

(** ['.' in s] *)
Fixpoint contains_dot (s : string) : bool :=
  match s with
  | EmptyString => false
  | String a rest => bool_decide (String a EmptyString = ".") || contains_dot rest
  end.

(** [s[:n]] *)
Fixpoint prefix (n : nat) (s : string) : string :=
  match n, s with
  | S n', String a rest => String a (prefix n' rest)
  | _, _ => EmptyString
  end.

Arguments prefix : simpl never.

Section Format.
(** Floats and timestamps, with the conversions of Python and pandas on
    them ([None]: the conversion raises). *)
Variables F T : Type.
Variable str_float : F → string.
Variable float_of_int : Z → F.
Variable int_of_float : F → option Z.
Variable float_of_str : string → option F.
Variable int_of_str : string → option Z.
Variable str_time : T → string.
Variable isoformat : T → string.

(** [str(value)] *)
Definition str (value : Cell F T) : string :=
  match value with
  | NNull => "None"
  | NInt z => pretty z
  | NFloat f => str_float f
  | NStr s => s
  | NTime t => str_time t
  end.

(** [float(value) if '.' in str(value) else int(value)], [None] when the
    conversion raises (neither conversion takes a timestamp). *)
Definition to_number (value : Cell F T) : option (Num F) :=
  if contains_dot (str value) then
    match value with
    | NInt z => Some (NumFloat (float_of_int z))
    | NFloat f => Some (NumFloat f)
    | NStr s => NumFloat <$> float_of_str s
    | NTime _ | NNull => None
    end
  else
    match value with
    | NInt z => Some (NumInt z)
    | NFloat f => NumInt <$> int_of_float f
    | NStr s => NumInt <$> int_of_str s
    | NTime _ | NNull => None
    end.

Definition format_property (property_name : string) (value : Cell F T)
    (property_type : string) : option (Property F) :=
  match value with
  | NNull => None
  | _ =>
      if bool_decide (property_type = "title") then
        Some (PTitle (prefix 2000 (str value)))
      else if bool_decide (property_type = "rich_text") then
        Some (PRichText (prefix 2000 (str value)))
      else if bool_decide (property_type = "number") then
        PNumber <$> to_number value
      else if bool_decide (property_type = "date") then
        Some (PDate (match value with NTime t => isoformat t | _ => str value end))
      else None
  end.

(** A row of the analytics frame: [row.get(column)], null for a column the
    frame does not have. *)
Definition NRow := string → Cell F T.

(** The fields after [subject_id], with their types, in the order the loop
    body formats them. *)
Definition other_fields : list (string * string) :=
  [("subject_type", "number"); ("collection_type", "number");
   ("score", "number"); ("rank", "number"); ("collection_total", "number");
   ("eps", "number"); ("name_cn", "rich_text"); ("created_at", "rich_text");
   ("air_date", "rich_text"); ("all_tags", "rich_text");
   ("updated_at", "date")]%string.

(** The [properties] dict of one row, in insertion order. *)
Definition build_properties (row : NRow) : list (string * Property F) :=
  ("subject_id"%string,
   default (PTitle "Untitled")
     (format_property "subject_id" (row "subject_id"%string) "title"))
  :: omap (λ field,
        (λ prop, (field.1, prop))
          <$> format_property field.1 (row field.1) field.2)
       other_fields.

Record Counts := mkCounts {
  success_count : nat;
  error_count : nat;
  posted : list (list (string * Property F));
  i_world : NWorld
}.

Variable sess : nat → Answer unit.

(** The body of the loop over the rows: the properties are built and
    posted, and the row is counted as a success on status 200 and as an
    error on any other status or exception. *)
Definition insert_row (acc : Counts) (row : NRow) : Counts :=
  let body := build_properties row in
  let w1 := sent (i_world acc) in
  match sess (n_clock (i_world acc)) with
  | Status status_code _ =>
      if status_code =? 200
      then mkCounts (S (success_count acc)) (error_count acc)
             (posted acc ++ [body]) w1
      else mkCounts (success_count acc) (S (error_count acc))
             (posted acc ++ [body]) w1
  | ConnectionError | OtherError =>
      mkCounts (success_count acc) (S (error_count acc))
        (posted acc ++ [body]) w1
  end.

(** [insert_data_into_database], given what [load_bangumi_data_to_mysql]
    returned for the analytics frame: [None] for the frame makes
    [len(df_analytics)] raise before the loop ([None] here). *)
Definition insert_data_into_database (df_analytics : option (list NRow))
    (w : NWorld) : option Counts :=
  match df_analytics with
  | None => None
  | Some rows => Some (foldl insert_row (mkCounts 0 0 [] w) rows)
  end.

End Format.

Arguments str {F T}.
Arguments to_number {F T}.
Arguments format_property {F T}.
Arguments build_properties {F T}.
Arguments insert_row {F T}.
Arguments insert_data_into_database {F T}.
Arguments mkCounts {F}.
Arguments success_count {F}.
Arguments error_count {F}.
Arguments posted {F}.
Arguments i_world {F}.

(** *** create_page, create_database and main *)

(** An answer with its body dropped. *)
Definition status_only {B : Type} (a : Answer B) : Answer unit :=
  match a with
  | Status status_code _ => Status status_code ()
  | ConnectionError => ConnectionError
  | OtherError => OtherError
  end.

Section Main.
(** The body of a creation response: its ["id"], [None] when the body has
    none. *)
Variable sess : nat → Answer (option string).

(** The request of [create_page] and [create_database]: the new id, or
    [None] when the call raises (a status other than 200, a body without
    id, an exception of [requests.post]). *)
Definition create (w : NWorld) : option (string * NWorld) :=
  match sess (n_clock w) with
  | Status status_code (Some id) =>
      if status_code =? 200 then Some (id, sent w) else None
  | Status _ None | ConnectionError | OtherError => None
  end.

Definition create_page (parent_id : option string) (w : NWorld)
  : option (string * NWorld) :=
  match parent_id with
  | None => create w
  | Some id => Some (id, w)
  end.

Definition create_database (parent_id : string) (database_id : option string)
    (w : NWorld) : option (string * NWorld) :=
  match database_id with
  | Some id => Some (id, w)
  | None => create w
  end.

Variables F T : Type.
Variable str_float : F → string.
Variable float_of_int : Z → F.
Variable int_of_float : F → option Z.
Variable float_of_str : string → option F.
Variable int_of_str : string → option Z.
Variable str_time : T → string.
Variable isoformat : T → string.

(** How [main] ends: the summary it prints and saves, or [sys.exit(1)]. *)
Inductive Ended :=
| Summary (parent_page_id database_id : string) (counts : Counts F)
| Exit1 (w : NWorld).

(** [main], given the configured ids and what the loading of the data
    returns for the analytics frame. *)
Definition main (parent_id database_id : option string)
    (df_analytics : option (list (NRow F T))) (w : NWorld) : Ended :=
  match create_page parent_id w with
  | None => Exit1 (sent w)
  | Some (parent_page_id, w1) =>
      match create_database parent_page_id database_id w1 with
      | None => Exit1 (sent w1)
      | Some (db_id, w2) =>
          match insert_data_into_database str_float float_of_int int_of_float
                  float_of_str int_of_str str_time isoformat
                  (λ n, status_only (sess n)) df_analytics w2 with
          | None => Exit1 w2
          | Some counts => Summary parent_page_id db_id counts
          end
      end
  end.

End Main.

Arguments Summary {F}.
Arguments Exit1 {F}.
Arguments main sess {F T}.

(** The world an ended run leaves. *)
Definition end_world {F : Type} (e : Ended F) : NWorld :=
  match e with
  | Summary _ _ counts => i_world counts
  | Exit1 w => w
  end.

(** The state after a connection error that is retried. *)
Definition q_retried (attempt : nat) (st : QState) : QState :=
  mkQState (all_records st) (q_has_more st) (start_cursor st)
    (n_sleep (backoff attempt) (sent (q_world st))).

(** Examples. *)
Definition sample_row : string → Cell unit unit :=
  λ col, if bool_decide (col = "subject_id") then NInt 42
         else if bool_decide (col = "name_cn") then NStr "x" else NNull.
Definition ok_then_500 : nat → Answer unit :=
  λ n, if (n <? 1)%nat then Status 200 () else Status 500 ().
Definition a_record : PageRec := mkPageRec "page-1" "{}".
Definition one_page : QueryResult := mkQuery [Some ("42"%string, a_record)] true None.
Definition endless : nat → Answer (option QueryResult) :=
  λ _, Status 200 (Some one_page).
Definition page_then_403 : nat → Answer (option QueryResult) :=
  λ n, if (n <? 1)%nat then Status 200 (Some one_page) else Status 403 None.
Definition page_then_down : nat → Answer (option QueryResult) :=
  λ n, if (n <? 1)%nat then Status 200 (Some one_page) else ConnectionError.
Definition n_fresh : NWorld := mkNWorld 0 [].
Definition fetched_one : QState :=
  mkQState {[ "42"%string := a_record ]} true None (mkNWorld 1 [Sent]).

End Notion.

(** ** The ingestion run *)

Module Ingestion.
Import Fetcher.

(** The time a log spends sleeping, in milliseconds. *)
Fixpoint slept (evs : list Event) : Z :=
  match evs with
  | [] => 0
  | Sleep ms :: rest => ms + slept rest
  | Request _ _ _ _ :: rest => slept rest
  end.

(** The requests of a log. *)
Definition requests (evs : list Event) : list Event :=
  List.filter (λ e, match e with Request _ _ _ _ => true | Sleep _ => false end) evs.

(** A request of the total check: one item at offset 0. *)
Definition is_total_check (e : Event) : Prop :=
  ∃ st ct, e = Request st ct 1 0.

(** An event a pass of the paged loop at the state [s] can log: a page
    request at the state's offset, or a sleep of at most 10 s. *)
Definition page_event (s : FetchState) (e : Event) : Prop :=
  e = page_request s ∨ ∃ ms, e = Sleep ms ∧ 0 ≤ ms ≤ 10000.

(** An event a fetch of the category [st] started at the offset [base] can
    log: a page request for that category, [LIMIT] wide, some whole pages
    further, or a sleep of at most 10 s. *)
Definition fetch_event (st : CategoryStats) (base : Z) (e : Event) : Prop :=
  (∃ k, 0 ≤ k
        ∧ e = Request (subject_type st) (collection_type st) LIMIT (base + LIMIT * k))
  ∨ ∃ ms, e = Sleep ms ∧ 0 ≤ ms ≤ 10000.

(** The state a pass of the loop ends in, whether it leaves the loop or not. *)
Definition step_state (r : Step) : FetchState :=
  match r with Break s | Continue s => s end.

(** An event the total check of the category [(st, ct)] can log. *)
Definition total_event (st ct : Z) (e : Event) : Prop :=
  e = Request st ct 1 0 ∨ ∃ ms, e = Sleep ms ∧ 0 ≤ ms.

(** The backoff sleeps a run of attempts can add up to: [wait_time] of
    every attempt but the last ones, which do not sleep. *)
Fixpoint backoff_budget (attempts : list nat) : Z :=
  match attempts with
  | [] => 0
  | attempt :: rest =>
      (if (attempt <? MAX_RETRIES - 1)%nat then wait_time attempt else 0)
      + backoff_budget rest
  end.

(** An event the resolution of the totals can log: a total check of some
    category, or a sleep. *)
Definition check_event (e : Event) : Prop :=
  is_total_check e ∨ ∃ ms, e = Sleep ms ∧ 0 ≤ ms.

(** A stats object as [get_all_category_totals] creates it for a key. *)
Definition fresh_stats (e : Z * Z * CategoryStats) : Prop :=
  subject_type e.2 = e.1.1 ∧ collection_type e.2 = e.1.2
  ∧ fetched_items e.2 = 0 ∧ pages_fetched e.2 = 0.


Section Main.
Variables RawRow AnalyticsRow : Type.
Variable raw_row : Z → Z → Item → RawRow.
Variable analytics_row : Z → Z → Item → AnalyticsRow.
Variable sess : Session.

(** What [main] returns: the two frames (as their rows) with the stats, or
    the triple of [None] when no row was collected. *)
Inductive Returned :=
| NoData
| Frames (df_raw : list RawRow) (df_analytics : list AnalyticsRow)
    (all_stats : list (Z * Z * CategoryStats)).

(** [main] of the ingestion module, up to the export of the frames to
    files: totals, collection, and the check for an empty collection. The
    outer [option] is the bound of the paged loops. *)
Definition main (w : World) : option (Returned * World) :=
  let '(all_stats, w1) := get_all_category_totals sess w in
  match collect_all_data raw_row analytics_row sess all_stats w1 with
  | None => None
  | Some c =>
      match raw_rows _ _ c with
      | [] => Some (NoData, c_world _ _ c)
      | _ :: _ =>
          Some (Frames (raw_rows _ _ c) (analytics_rows _ _ c) (seen_stats _ _ c),
                c_world _ _ c)
      end
  end.

End Main.

Arguments NoData {RawRow AnalyticsRow}.
Arguments Frames {RawRow AnalyticsRow}.
Arguments main {RawRow AnalyticsRow}.

End Ingestion.

(** ** Part III: properties of the reconciler *)

Module ReconcilerProofs.
Import Reconciler.

(** *** Lists split by a boolean mask *)

Lemma filter_mask_split {A} (p : A → bool) (l : list A) :
  List.filter p l ++ List.filter (λ x, negb (p x)) l ≡ₚ l.
Proof.
  induction l as [|x l IH]; simpl; [done|].
  destruct (p x); simpl.
  - by constructor.
  - rewrite <- Permutation_middle. by constructor.
Qed.

Lemma filter_none {A} (p : A → bool) (l : list A) :
  (∀ x, x ∈ l → p x = false) → List.filter p l = [].
Proof.
  induction l as [|x l IH]; simpl; intros H; [done|].
  rewrite (H x) by left. apply IH. intros y Hy. apply H. by right.
Qed.

Lemma filter_same {A} (p q : A → bool) (l : list A) :
  (∀ x, x ∈ l → p x = q x) → List.filter p l = List.filter q l.
Proof.
  intros H. apply List.filter_ext_in. intros x Hx. apply H.
  by apply list_elem_of_In.
Qed.

Lemma elem_of_filter_mask {A} (p : A → bool) (l : list A) (x : A) :
  x ∈ List.filter p l ↔ x ∈ l ∧ p x = true.
Proof. rewrite !list_elem_of_In. apply List.filter_In. Qed.

(** *** Keys of a frame *)

Lemma isna_notna (r : Row) : isna r = negb (notna r).
Proof. unfold isna, notna. by destruct (subject_id r). Qed.

Lemma elem_of_id_set (df : DataFrame) (k : Z) :
  k ∈ id_set df ↔ ∃ r, r ∈ df ∧ subject_id r = Some k.
Proof. unfold id_set. rewrite elem_of_list_to_set, list_elem_of_omap. done. Qed.

Lemma omap_with_id (df : DataFrame) :
  omap subject_id (List.filter notna df) = omap subject_id df.
Proof.
  induction df as [|r df IH]; [done|].
  cbn [List.filter]. unfold notna at 1.
  destruct (subject_id r) as [k|] eqn:E; cbn [omap list_omap]; rewrite E; cbn.
  - by rewrite <- IH.
  - done.
Qed.

Lemma id_set_with_id (df : DataFrame) : id_set (List.filter notna df) = id_set df.
Proof. unfold id_set. by rewrite omap_with_id. Qed.

Lemma isin_true (ids : gset Z) (r : Row) :
  isin ids r = true ↔ ∃ k, subject_id r = Some k ∧ k ∈ ids.
Proof.
  unfold isin. destruct (subject_id r) as [k|].
  - rewrite bool_decide_eq_true. naive_solver.
  - naive_solver.
Qed.

Lemma unique_keys_perm (df1 df2 : DataFrame) :
  df1 ≡ₚ df2 → unique_keys df1 → unique_keys df2.
Proof. unfold unique_keys. intros H. by rewrite H. Qed.

Section DiffFacts.
Variables df_source df_target : DataFrame.

Lemma source_id_set_eq : source_id_set df_source = id_set df_source.
Proof. apply id_set_with_id. Qed.

Lemma target_id_set_eq : target_id_set df_target = id_set df_target.
Proof. apply id_set_with_id. Qed.

(** Every keyed target row is removed by one of the two filters. *)
Lemma df_combined_nil : df_combined df_source df_target = [].
Proof.
  unfold df_combined. apply filter_none. intros r Hr.
  apply elem_of_filter_mask in Hr as [Hr Hdel].
  apply elem_of_filter_mask in Hr as [Hr Hna].
  unfold notna in Hna. destruct (subject_id r) as [k|] eqn:Hk; [|done].
  assert (k ∈ target_id_set df_target) as Ht.
  { rewrite target_id_set_eq. apply elem_of_id_set. eauto. }
  apply negb_true_iff in Hdel. apply negb_false_iff.
  apply isin_true. exists k. split; [done|].
  unfold common_ids. apply elem_of_intersection. split; [|done].
  destruct (decide (k ∈ source_id_set df_source)) as [|Hs]; [done|].
  exfalso. assert (isin (delete_ids df_source df_target) r = true) as E.
  { apply isin_true. exists k. split; [done|]. unfold delete_ids. set_solver. }
  congruence.
Qed.

(** The inserted and the updated rows together are the keyed source rows. *)
Lemma df_updated_complement :
  df_updated df_source df_target =
  List.filter (λ r, negb (isin (insert_ids df_source df_target) r))
    (df_source_with_id df_source).
Proof.
  unfold df_updated. apply filter_same. intros r Hr.
  apply elem_of_filter_mask in Hr as [Hr Hna].
  unfold notna in Hna. destruct (subject_id r) as [k|] eqn:Hk; [|done].
  assert (k ∈ source_id_set df_source) as Hs.
  { rewrite source_id_set_eq. apply elem_of_id_set. eauto. }
  unfold isin. rewrite Hk. unfold common_ids, insert_ids.
  destruct (decide (k ∈ target_id_set df_target)) as [Ht|Ht].
  - rewrite bool_decide_eq_true_2, bool_decide_eq_false_2 by set_solver. done.
  - rewrite bool_decide_eq_false_2, bool_decide_eq_true_2 by set_solver. done.
Qed.

Lemma df_new_updated_perm :
  df_new df_source df_target ++ df_updated df_source df_target
  ≡ₚ df_source_with_id df_source.
Proof. rewrite df_updated_complement. apply filter_mask_split. Qed.

Lemma source_split_perm :
  df_source_with_id df_source ++ df_source_na_id df_source ≡ₚ df_source.
Proof.
  unfold df_source_with_id, df_source_na_id.
  rewrite (filter_same isna (λ r, negb (notna r))) by (intros; apply isna_notna).
  apply filter_mask_split.
Qed.

Lemma reconcile_diff_path :
  is_empty df_target = false →
  reconcile df_source df_target =
  df_new df_source df_target ++ df_updated df_source df_target
    ++ df_source_na_id df_source.
Proof. unfold reconcile. intros ->. by rewrite df_combined_nil. Qed.

Lemma reconcile_perm : reconcile df_source df_target ≡ₚ df_source.
Proof.
  destruct (is_empty df_target) eqn:E.
  - unfold reconcile. by rewrite E.
  - rewrite reconcile_diff_path by done.
    rewrite (assoc (++)), df_new_updated_perm. apply source_split_perm.
Qed.

End DiffFacts.

Import Scenarios.

Lemma filter_all {A} (p : A → bool) (l : list A) :
  (∀ x, x ∈ l → p x = true) → List.filter p l = l.
Proof.
  induction l as [|x l IH]; simpl; intros H; [done|].
  rewrite (H x) by left. f_equal. apply IH. intros y Hy. apply H. by right.
Qed.

Lemma filter_isna_keyed (p : Row → bool) (df : DataFrame) :
  List.filter isna (List.filter p (List.filter notna df)) = [].
Proof.
  apply filter_none. intros r Hr.
  apply elem_of_filter_mask in Hr as [Hr _].
  apply elem_of_filter_mask in Hr as [_ Hr].
  rewrite isna_notna, Hr. done.
Qed.

Lemma filter_isna_idem (df : DataFrame) :
  List.filter isna (List.filter isna df) = List.filter isna df.
Proof. apply filter_all. intros r Hr. by apply elem_of_filter_mask in Hr as [_ Hr]. Qed.

Lemma id_set_perm (df1 df2 : DataFrame) : df1 ≡ₚ df2 → id_set df1 = id_set df2.
Proof.
  intros H. apply set_eq. intros k. rewrite !elem_of_id_set.
  split; intros (r & Hr & Hk); exists r; split; try done.
  - by rewrite <- H.
  - by rewrite H.
Qed.

(** The scenario of the spec, run: inserts {3}, deletes {2}, common {1}. *)
Example scenario_runs :
  reconcile scenario_source scenario_target = [row 3 3; row 1 1]
  ∧ elements (insert_ids scenario_source scenario_target) = [3]
  ∧ elements (delete_ids scenario_source scenario_target) = [2]
  ∧ elements (common_ids scenario_source scenario_target) = [1].
Proof. vm_compute. done. Qed.

(** On the diff path the rows come out as inserts, updates, keyless rows:
    the output need not be in the source's order. *)
Example reconcile_reorders :
  reconcile interleaved_source interleaved_target = [row 3 3; row 1 1; keyless 10].
Proof. vm_compute. done. Qed.

(** The table-level wrapper writes a frame with the rows of the source. *)
Lemma implement_incremental_load_rows (src tgt : string) (db db' : Database)
    (df_source : DataFrame) :
  db !! src = Some df_source →
  implement_incremental_load src tgt db = Some db' →
  ∃ df, db' !! tgt = Some df ∧ df ≡ₚ df_source.
Proof.
  unfold implement_incremental_load. intros -> [= <-].
  eexists. split; [apply lookup_insert_eq|apply reconcile_perm].
Qed.


(** C2. The three key sets of the diff are pairwise disjoint and together
    they are the keys of the source and of the target. *)
Theorem key_accounting (df_source df_target : DataFrame) :
  insert_ids df_source df_target ## delete_ids df_source df_target
  ∧ insert_ids df_source df_target ## common_ids df_source df_target
  ∧ delete_ids df_source df_target ## common_ids df_source df_target
  ∧ insert_ids df_source df_target ∪ delete_ids df_source df_target
      ∪ common_ids df_source df_target
    = source_id_set df_source ∪ target_id_set df_target.
Proof.
  unfold insert_ids, delete_ids, common_ids.
  generalize (source_id_set df_source) (target_id_set df_target).
  intros X Y. split_and!; [set_solver..|].
  apply set_eq. intros k.
  rewrite !elem_of_union, !elem_of_difference, elem_of_intersection.
  destruct (decide (k ∈ X)), (decide (k ∈ Y)); tauto.
Qed.

(** C3, as the code has it. The keys of the output are those of the source
    with their multiplicities, so the output has each non-null key at most
    once whenever the source snapshot does; the previous target plays no
    part. *)
Theorem reconcile_unique_keys (df_source df_target : DataFrame) :
  unique_keys df_source → unique_keys (reconcile df_source df_target).
Proof.
  intros H. eapply unique_keys_perm; [|exact H].
  symmetry. apply reconcile_perm.
Qed.

Lemma reconcile_unique_keys_witness :
  unique_keys scenario_source
  ∧ unique_keys (reconcile scenario_source scenario_target).
Proof.
  assert (unique_keys scenario_source) as H.
  { unfold unique_keys. vm_compute. repeat constructor; set_solver. }
  split; [exact H|]. exact (reconcile_unique_keys scenario_source scenario_target H).
Defined.

(** C3 as stated fails: the target holds key 7 once, the source repeats it,
    and both source rows reach the output. *)
Lemma unique_keys_not_preserved :
  unique_keys dup_target
  ∧ omap subject_id (reconcile dup_source dup_target) = [7; 7]
  ∧ ¬ unique_keys (reconcile dup_source dup_target).
Proof.
  split_and!.
  - unfold unique_keys. vm_compute. repeat constructor; set_solver.
  - vm_compute. done.
  - unfold unique_keys.
    replace (omap subject_id (reconcile dup_source dup_target)) with [7; 7]
      by (vm_compute; done).
    intros H. apply NoDup_cons in H as [H _]. apply H. by left.
Qed.

(** C4. Against a non-empty previous target, the keyless rows of the output
    are the keyless rows of the source, in the source's order and nothing
    else; the part of the output taken from the target has no keyless row,
    so a keyless target row that the source does not supply is absent from
    the output; and every keyless source row is in the output. *)
Theorem keyless_rows_policy (df_source df_target : DataFrame) :
  is_empty df_target = false →
  List.filter isna (reconcile df_source df_target) = df_source_na_id df_source
  ∧ (∀ r, r ∈ df_combined df_source df_target → isna r = false)
  ∧ (∀ r, r ∈ df_target_na_id df_target → r ∉ df_source →
       r ∉ reconcile df_source df_target)
  ∧ (∀ r, r ∈ df_source → isna r = true → r ∈ reconcile df_source df_target).
Proof.
  intros E. split_and!.
  - rewrite reconcile_diff_path by done.
    rewrite !List.filter_app.
    unfold df_new, df_updated, df_source_with_id, df_source_na_id.
    rewrite !filter_isna_keyed, filter_isna_idem. done.
  - rewrite df_combined_nil. intros r Hr. by apply elem_of_nil in Hr.
  - intros r _ Hs Hr. apply Hs. by rewrite <- (reconcile_perm df_source df_target).
  - intros r Hr _. by rewrite (reconcile_perm df_source df_target).
Qed.

Lemma keyless_rows_policy_witness :
  List.filter isna (reconcile mixed_source mixed_target) = [keyless 10; keyless 11]
  ∧ keyless 20 ∉ reconcile mixed_source mixed_target.
Proof.
  destruct (keyless_rows_policy mixed_source mixed_target eq_refl)
    as (H1 & _ & H3 & _).
  split; [exact H1|].
  apply H3.
  - vm_compute. by left.
  - vm_compute. intros H.
    repeat (apply elem_of_cons in H as [H|H]; [discriminate H|]).
    by apply elem_of_nil in H.
Defined.

(** C5. Reconciling a snapshot against itself: nothing to insert, nothing
    to delete, every key common; no target row is kept and every keyed row
    is taken from the source copy; the output has the key set (and the rows)
    of the snapshot. *)
Theorem reconcile_self (S : DataFrame) :
  insert_ids S S = ∅
  ∧ delete_ids S S = ∅
  ∧ common_ids S S = id_set S
  ∧ id_set (reconcile S S) = id_set S
  ∧ df_combined S S = []
  ∧ df_new S S = []
  ∧ df_updated S S = df_source_with_id S
  ∧ reconcile S S ≡ₚ S.
Proof.
  assert (common_ids S S = id_set S) as Hc.
  { unfold common_ids, target_id_set. rewrite !source_id_set_eq, id_set_with_id.
    set_solver. }
  split_and!.
  - unfold insert_ids, target_id_set, source_id_set. set_solver.
  - unfold delete_ids, target_id_set, source_id_set. set_solver.
  - exact Hc.
  - apply id_set_perm, reconcile_perm.
  - apply df_combined_nil.
  - unfold df_new. apply filter_none. intros r _.
    unfold isin. destruct (subject_id r); [|done].
    apply bool_decide_eq_false.
    unfold insert_ids, target_id_set, source_id_set. set_solver.
  - unfold df_updated. apply filter_all. intros r Hr.
    apply elem_of_filter_mask in Hr as [Hr Hna].
    unfold notna in Hna. destruct (subject_id r) as [k|] eqn:Hk; [|done].
    apply isin_true. exists k. split; [done|].
    rewrite Hc. apply elem_of_id_set. eauto.
  - apply reconcile_perm.
Qed.

End ReconcilerProofs.

(** ** Part IV: properties of the fetchers *)

Module FetcherProofs.
Import Fetcher Scenarios.

Example wait_times : wait_time 0 = 1000 ∧ wait_time 1 = 2000.
Proof. done. Qed.

(** *** The inner attempts of one page *)

Section PageFacts.
Variable sess : Session.

Ltac unchanged := simpl; split_and!; first [done | lia].

(** What one run of the inner loop can change. *)
Lemma page_attempts_inv (attempts : list nat) (s s1 : FetchState)
    (res : option (list Item)) :
  page_attempts sess attempts s = (res, s1) →
  total_items (stats s1) = total_items (stats s)
  ∧ (clock (world s) ≤ clock (world s1) ≤ clock (world s) + length attempts)%nat
  ∧ match res with
    | None | Some [] =>
        all_items s1 = all_items s ∧ offset s1 = offset s
        ∧ consecutive_failures s1 = consecutive_failures s ∧ stats s1 = stats s
    | Some items =>
        all_items s1 = all_items s ++ items ∧ consecutive_failures s1 = 0
        ∧ ((offset s + LIMIT >= total_items (stats s) ∧ offset s1 = offset s)
           ∨ (offset s + LIMIT < total_items (stats s)
              ∧ offset s1 = offset s + LIMIT))
    end.
Proof.
  revert s. induction attempts as [|attempt rest IH]; intros s H.
  - simpl in H. injection H as <- <-. unchanged.
  - simpl in H. destruct (sess (clock (world s))) as [code body| | | |].
    + destruct (code =? 429).
      { apply IH in H as (H1 & H2 & H3). simpl in *. split_and!; [done|lia|lia|done]. }
      destruct (raises_for_status code).
      { injection H as <- <-. unchanged. }
      destruct body as [payload|]; [|injection H as <- <-; unchanged].
      destruct (default [] (p_data payload)) as [|i items] eqn:E.
      { injection H as <- <-. unchanged. }
      simpl in H.
      destruct (Z.geb_spec (offset s + LIMIT) (total_items (stats s))) as [G|G];
        injection H as <- <-; simpl; split_and!; try done; lia.
    + apply IH in H as (H1 & H2 & H3).
      destruct (attempt <? _)%nat; simpl in *;
        (split_and!; [done|lia|lia|done]).
    + apply IH in H as (H1 & H2 & H3).
      destruct (attempt <? _)%nat; simpl in *;
        (split_and!; [done|lia|lia|done]).
    + injection H as <- <-. unchanged.
    + injection H as <- <-. unchanged.
Qed.

End PageFacts.

(** *** One pass of the outer loop *)

Section LoopFacts.
Variable sess : Session.

Lemma outer_iteration_continue (s s' : FetchState) :
  outer_iteration sess s = Continue s' →
  offset s' = offset s + LIMIT
  ∧ total_items (stats s') = total_items (stats s)
  ∧ (clock (world s) ≤ clock (world s') ≤ clock (world s) + MAX_RETRIES)%nat
  ∧ ((consecutive_failures s' = 0 ∧ offset s' + LIMIT < total_items (stats s))
     ∨ (consecutive_failures s' = consecutive_failures s + 1
        ∧ consecutive_failures s' < max_consecutive_failures)).
Proof.
  unfold outer_iteration.
  destruct (page_attempts sess (seq 0 MAX_RETRIES) s) as [res s1] eqn:E.
  apply page_attempts_inv in E as (H1 & H2 & H3). rewrite length_seq in H2.
  destruct res as [[|i items]|].
  - done.
  - destruct (Z.geb_spec (offset s1 + LIMIT) (total_items (stats s1))) as [G|G];
      [done|]. intros [= <-]. rewrite H1 in G. split_and!; first [done|lia].
  - cbn [consecutive_failures set_failures].
    destruct (Z.geb_spec (consecutive_failures s1 + 1) max_consecutive_failures)
      as [G|G]; [done|]. intros [= <-]. simpl.
    destruct H3 as (_ & Ho & Hc & _). split_and!; first [done|lia].
Qed.

Lemma outer_iteration_break (s s' : FetchState) :
  outer_iteration sess s = Break s' →
  (clock (world s) ≤ clock (world s') ≤ clock (world s) + MAX_RETRIES)%nat.
Proof.
  unfold outer_iteration.
  destruct (page_attempts sess (seq 0 MAX_RETRIES) s) as [res s1] eqn:E.
  apply page_attempts_inv in E as (H1 & H2 & H3). rewrite length_seq in H2.
  destruct res as [[|i items]|].
  - by intros [= <-].
  - destruct (_ >=? _); by intros [= <-].
  - destruct (_ >=? _); by intros [= <-].
Qed.

Lemma measure_pos (s : FetchState) : (1 ≤ measure s)%nat.
Proof. unfold measure. destruct (0 <? pending_pages s); lia. Qed.

Lemma pending_pages_next (s s' : FetchState) :
  offset s' = offset s + LIMIT →
  total_items (stats s') = total_items (stats s) →
  pending_pages s' = pending_pages s - 1.
Proof.
  unfold pending_pages, ceil_div, LIMIT. intros -> ->.
  replace (total_items (stats s) - 2 * 100 - (offset s + 100) + 100 - 1)
    with (total_items (stats s) - 2 * 100 - offset s + 100 - 1 + (-1) * 100) by lia.
  rewrite Z.div_add by lia. lia.
Qed.

Lemma pending_pages_pos (s : FetchState) :
  offset s + 2 * LIMIT < total_items (stats s) → 0 < pending_pages s.
Proof.
  unfold pending_pages, ceil_div, LIMIT. intros H.
  apply Z.div_str_pos. lia.
Qed.

(** Every pass that does not leave the loop lowers the measure. *)
Lemma measure_decreases (s s' : FetchState) :
  outer_iteration sess s = Continue s' →
  0 ≤ consecutive_failures s →
  (measure s' < measure s)%nat ∧ 0 ≤ consecutive_failures s'.
Proof.
  intros (Ho & Ht & _ & Hc)%outer_iteration_continue Hcf.
  pose proof (pending_pages_next s s' Ho Ht) as Hp.
  unfold measure. rewrite Hp. unfold max_consecutive_failures in Hc.
  destruct Hc as [[Hc Hlt]|[Hc Hlt]].
  - assert (0 < pending_pages s) as Hpos by (apply pending_pages_pos; lia).
    rewrite Hc. destruct (Z.ltb_spec 0 (pending_pages s)); [|lia].
    destruct (Z.ltb_spec 0 (pending_pages s - 1)); simpl; lia.
  - destruct (Z.ltb_spec 0 (pending_pages s)),
      (Z.ltb_spec 0 (pending_pages s - 1)); lia.
Qed.

(** Fuel at least the measure is enough, and the passes made stay within
    the measure; each pass issues at most [MAX_RETRIES] requests. *)
Lemma fetch_loop_terminates (fuel : nat) : ∀ s : FetchState,
  0 ≤ consecutive_failures s →
  (measure s ≤ fuel)%nat →
  ∃ n s', fetch_loop sess fuel s = Some (n, s')
          ∧ (1 ≤ n ≤ measure s)%nat
          ∧ (clock (world s') ≤ clock (world s) + MAX_RETRIES * n)%nat.
Proof.
  induction fuel as [|fuel IH]; intros s Hcf Hm.
  - pose proof (measure_pos s). lia.
  - simpl. destruct (outer_iteration sess s) as [s'|s'] eqn:E.
    + exists 1%nat, s'. apply outer_iteration_break in E.
      pose proof (measure_pos s). unfold MAX_RETRIES in *.
      split_and!; first [done|lia].
    + pose proof (measure_decreases s s' E Hcf) as [Hlt Hcf'].
      destruct (IH s' Hcf' ltac:(lia)) as (n & s'' & -> & Hn & Hclk).
      apply outer_iteration_continue in E as (_ & _ & E & _).
      exists (S n), s''. unfold MAX_RETRIES in *. split_and!; first [done|lia].
Qed.

Lemma fetch_loop_more_fuel (fuel k : nat) : ∀ (s : FetchState) r,
  fetch_loop sess fuel s = Some r → fetch_loop sess (fuel + k) s = Some r.
Proof.
  induction fuel as [|fuel IH]; intros s r; simpl; [done|].
  destruct (outer_iteration sess s) as [s'|s']; [done|].
  destruct (fetch_loop sess fuel s') as [[n s'']|] eqn:E; [|done].
  intros [= <-]. by rewrite (IH _ _ E).
Qed.

Lemma measure_init (st : CategoryStats) (w : World) :
  (measure (init_state st w) ≤ loop_bound (total_items st))%nat.
Proof.
  unfold measure, loop_bound, pending_pages, ceil_div, LIMIT. simpl.
  assert ((total_items st - 2 * 100 - 0 + 100 - 1) `div` 100
          ≤ (total_items st + 100 - 1) `div` 100) by (apply Z.div_le_mono; lia).
  destruct (0 <? _); lia.
Qed.

End LoopFacts.

(** *** Rate limiting (C6) *)

Section RateLimit.
Variable sess : Session.

Lemma page_attempts_429 (attempt : nat) (rest : list nat) (s : FetchState) :
  rate_limited (sess (clock (world s))) = true →
  page_attempts sess (attempt :: rest) s = page_attempts sess rest (after_429 s).
Proof.
  unfold rate_limited. simpl.
  destruct (sess (clock (world s))) as [code body| | | |]; try done.
  intros ->. unfold after_429, sleep. simpl. by rewrite <- (assoc (++)).
Qed.

Lemma page_attempts_all_429 (s : FetchState) :
  (∀ i, (i < MAX_RETRIES)%nat →
        rate_limited (sess (clock (world s) + i)%nat) = true) →
  page_attempts sess (seq 0 MAX_RETRIES) s
  = (None, after_429 (after_429 (after_429 s))).
Proof.
  intros H. unfold MAX_RETRIES in *.
  pose proof (H 0%nat ltac:(lia)) as H0. rewrite Nat.add_0_r in H0.
  pose proof (H 1%nat ltac:(lia)) as H1. rewrite Nat.add_1_r in H1.
  pose proof (H 2%nat ltac:(lia)) as H2.
  replace (clock (world s) + 2)%nat with (S (S (clock (world s)))) in H2 by lia.
  cbn [seq].
  rewrite page_attempts_429 by done.
  rewrite page_attempts_429 by done.
  rewrite page_attempts_429 by done.
  done.
Qed.

End RateLimit.

(** C6 as stated fails. Three 429 answers to the page at offset 0 use up
    the three attempts: after exactly three requests the page is given up,
    the failure is counted and the offset has moved on to the next page. *)
Lemma rate_limit_is_counted :
  (∀ n, (n < 3)%nat → rate_limited (limited_thrice n) = true)
  ∧ outer_iteration limited_thrice start_250
    = Continue
        (mkFetch [] 100 1 (anime_watched 250)
           (mkWorld 3
              [Request 2 2 100 0; Sleep 10000; Request 2 2 100 0; Sleep 10000;
               Request 2 2 100 0; Sleep 10000]))
  ∧ fetch_single_category limited_thrice (anime_watched 250) fresh
    = Some ([item1], mkStats 2 2 250 1 1,
            mkWorld 4
              [Request 2 2 100 0; Sleep 10000; Request 2 2 100 0; Sleep 10000;
               Request 2 2 100 0; Sleep 10000; Request 2 2 100 100; Sleep 500]).
Proof.
  split_and!.
  - intros n Hn. unfold limited_thrice.
    destruct (Nat.ltb_spec n 3); [done|lia].
  - vm_compute. done.
  - vm_compute. done.
Qed.

(** C6, as the code has it. A 429 answer is followed by a 10 s sleep and the
    next attempt of the same inner loop, at the same offset and with the
    failure counter untouched: it uses up one of the [MAX_RETRIES] attempts.
    A page whose attempts are all answered 429 is given up like any failed
    page: the failure is counted, and the page is skipped or, at the
    threshold, the fetch stops. *)
Theorem rate_limit_uses_attempt (sess : Session) (attempt : nat)
    (rest : list nat) (s : FetchState) :
  rate_limited (sess (clock (world s))) = true →
  page_attempts sess (attempt :: rest) s = page_attempts sess rest (after_429 s)
  ∧ page_request (after_429 s) = page_request s
  ∧ consecutive_failures (after_429 s) = consecutive_failures s
  ∧ all_items (after_429 s) = all_items s
  ∧ ((∀ i, (i < MAX_RETRIES)%nat →
           rate_limited (sess (clock (world s) + i)%nat) = true) →
     let s1 := after_429 (after_429 (after_429 s)) in
     page_attempts sess (seq 0 MAX_RETRIES) s = (None, s1)
     ∧ clock (world s1) = (clock (world s) + MAX_RETRIES)%nat
     ∧ consecutive_failures (failed_page s1) = consecutive_failures s + 1
     ∧ outer_iteration sess s
       = if consecutive_failures s + 1 >=? max_consecutive_failures
         then Break (failed_page s1) else Continue (skipped_page s1)).
Proof.
  intros H. split_and!; try done.
  - by apply page_attempts_429.
  - intros Hall s1. pose proof (page_attempts_all_429 sess s Hall) as E.
    split_and!; try done.
    + unfold MAX_RETRIES. simpl. lia.
    + unfold outer_iteration. rewrite E. done.
Qed.

Lemma rate_limit_uses_attempt_witness :
  page_attempts limited_thrice [0; 1; 2]%nat start_250
  = page_attempts limited_thrice [1; 2]%nat (after_429 start_250)
  ∧ outer_iteration limited_thrice start_250
    = Continue (skipped_page (after_429 (after_429 (after_429 start_250)))).
Proof.
  destruct (rate_limit_uses_attempt limited_thrice 0 [1; 2]%nat start_250 eq_refl)
    as (H1 & _ & _ & _ & H).
  split; [exact H1|].
  assert (∀ i, (i < MAX_RETRIES)%nat →
               rate_limited (limited_thrice (clock (world start_250) + i)%nat)
               = true) as Hall.
  { intros i Hi. unfold MAX_RETRIES in Hi.
    destruct i as [|[|[|i]]]; [reflexivity..|lia]. }
  destruct (H Hall) as (_ & _ & _ & Hstep). exact Hstep.
Defined.

(** A single 429 within the budget costs an attempt but no failure: the
    page is fetched on the second attempt. *)
Example one_429_then_page :
  outer_iteration limited_once start_250
  = Continue
      (mkFetch [item1] 100 0 (mkStats 2 2 250 1 1)
         (mkWorld 2
            [Request 2 2 100 0; Sleep 10000; Request 2 2 100 0; Sleep 500])).
Proof. vm_compute. done. Qed.

(** *** Failed pages (C7) *)

Section FailedPages.
Variable sess : Session.



End FailedPages.



(** The scenario of the spec: a page is fetched, then three pages in a row
    fail after their retries; the fetch stops with the one page it has and
    a failure count of 3, after four passes. *)
Example three_failed_pages :
  ∃ s, fetch_loop down_after_one (loop_bound 1000)
         (init_state (anime_watched 1000) fresh) = Some (4%nat, s)
       ∧ all_items s = [item1]
       ∧ consecutive_failures s = 3
       ∧ offset s = 300
       ∧ fetch_single_category down_after_one (anime_watched 1000) fresh
         = Some ([item1], stats s, world s).
Proof. eexists. vm_compute. done. Qed.

(** A total of 250 with full pages: the offset is advanced before the check
    at the bottom of the loop, so the loop ends after the pages at offsets 0
    and 100; the page at offset 200 is never requested. *)
Example last_page_not_requested :
  ∃ s, fetch_loop (λ _, page1) (loop_bound 250)
         (init_state (anime_watched 250) fresh) = Some (2%nat, s)
       ∧ offset s = 200
       ∧ log (world s)
         = [Request 2 2 100 0; Sleep 500; Request 2 2 100 100; Sleep 500].
Proof. eexists. vm_compute. done. Qed.

(** *** Termination (C8) *)

(** C8. For every expected total and every session, the loop ends: the
    fetch returns, after at most [ceil(total / LIMIT) + 3] passes of the
    outer loop and at most [MAX_RETRIES] requests per pass, whatever bound
    at least that large the loop is run under; and every pass that does not
    end the loop moves the offset forward by exactly one page. *)
Theorem fetch_single_category_terminates (sess : Session)
    (st : CategoryStats) (w : World) :
  (∃ n s,
     fetch_loop sess (loop_bound (total_items st)) (init_state st w) = Some (n, s)
     ∧ fetch_single_category sess st w = Some (all_items s, stats s, world s)
     ∧ (n ≤ Z.to_nat (ceil_div (total_items st) LIMIT) + 3)%nat
     ∧ (clock (world s) ≤ clock w + MAX_RETRIES * n)%nat
     ∧ ∀ k, fetch_loop sess (loop_bound (total_items st) + k) (init_state st w)
            = Some (n, s))
  ∧ (∀ s s', outer_iteration sess s = Continue s' →
             offset s' = offset s + LIMIT
             ∧ total_items (stats s') = total_items (stats s)).
Proof.
  split.
  - pose proof (measure_init st w) as Hm.
    destruct (fetch_loop_terminates sess (loop_bound (total_items st))
                (init_state st w) ltac:(done) Hm) as (n & s & E & Hn & Hc).
    exists n, s. split_and!.
    + done.
    + unfold fetch_single_category. by rewrite E.
    + unfold loop_bound in Hm. lia.
    + exact Hc.
    + intros k. by apply fetch_loop_more_fuel.
  - intros s s' (H1 & H2 & _)%outer_iteration_continue. done.
Qed.

(** *** Empty categories (C9) *)

(** Called on its own with an expected total of 0, the paged fetcher does
    request a page: it is the guard in the category loop that spares it. *)
Example fetch_single_category_total_zero :
  fetch_single_category (λ _, page1) (anime_watched 0) fresh
  = Some ([item1], mkStats 2 2 0 1 1, mkWorld 1 [Request 2 2 100 0]).
Proof. vm_compute. done. Qed.



(** A run over categories that are all empty requests nothing. *)
Lemma collect_all_data_all_empty {RawRow AnalyticsRow : Type}
    (raw_row : Z → Z → Item → RawRow)
    (analytics_row : Z → Z → Item → AnalyticsRow)
    (sess : Session) (all_stats : list (Z * Z * CategoryStats)) (w : World) :
  Forall (λ e, total_items e.2 = 0) all_stats →
  ∃ c, collect_all_data raw_row analytics_row sess all_stats w = Some c
       ∧ raw_rows _ _ c = [] ∧ analytics_rows _ _ c = [] ∧ c_world _ _ c = w.
Proof.
  unfold collect_all_data. generalize (@nil (Z * Z * CategoryStats)).
  induction all_stats as [|[key st] rest IH]; intros seen H.
  - eexists. simpl. done.
  - apply Forall_cons in H as [H1 H2]. simpl in H1.
    simpl. unfold collect_category. rewrite H1. simpl. by apply IH.
Qed.

(** With the network down every total resolves to 0 after three attempts,
    and the collection that follows requests no page: the 36 requests of
    the run are all total checks. *)
Example outage_run :
  ∃ all_stats w c,
    get_all_category_totals always_down fresh = (all_stats, w)
    ∧ Forall (λ e, total_items e.2 = 0) all_stats
    ∧ length all_stats = 12%nat
    ∧ clock w = 36%nat
    ∧ collect_all_data (λ _ _ i, i) (λ _ _ i, i) always_down all_stats w = Some c
    ∧ raw_rows _ _ c = [] ∧ c_world _ _ c = w.
Proof.
  do 3 eexists. split; [vm_compute; reflexivity|].
  split_and!; try (vm_compute; reflexivity).
  repeat constructor.
Qed.

(** *** The category total (C10) *)

Section TotalFacts.
Variable sess : Session.
Variables st ct : Z.

Lemma total_attempts_retry (attempt : nat) (rest : list nat) (w : World) :
  retryable (sess (clock w)) = true →
  (attempt < MAX_RETRIES - 1)%nat →
  total_attempts sess st ct (attempt :: rest) w
  = total_attempts sess st ct rest
      (mkWorld (S (clock w))
         (log w ++ [Request st ct 1 0; Sleep (wait_time attempt)])).
Proof.
  unfold retryable. intros H Hlt%Nat.ltb_lt. cbn [total_attempts get].
  destruct (sess (clock w)) as [code body| | | |]; try done;
    rewrite Hlt; unfold sleep; simpl; by rewrite <- (assoc (++)).
Qed.

Lemma total_attempts_last (attempt : nat) (rest : list nat) (w : World) :
  retryable (sess (clock w)) = true →
  ¬ (attempt < MAX_RETRIES - 1)%nat →
  total_attempts sess st ct (attempt :: rest) w
  = (0, mkWorld (S (clock w)) (log w ++ [Request st ct 1 0])).
Proof.
  unfold retryable. intros H Hlt%Nat.ltb_nlt. cbn [total_attempts get].
  destruct (sess (clock w)) as [code body| | | |]; try done; by rewrite Hlt.
Qed.

Lemma total_attempts_answer (attempt : nat) (rest : list nat) (w : World) :
  retryable (sess (clock w)) = false →
  total_attempts sess st ct (attempt :: rest) w
  = (answer (sess (clock w)),
     mkWorld (S (clock w)) (log w ++ [Request st ct 1 0])).
Proof.
  unfold retryable, answer. simpl.
  destruct (sess (clock w)) as [code [payload|]| | | |]; try done;
    by destruct (raises_for_status code).
Qed.

(** The result is zero or a total that some answer declared. *)
Lemma total_attempts_result (attempts : list nat) : ∀ w : World,
  (total_attempts sess st ct attempts w).1 = 0
  ∨ ∃ n code payload,
      sess n = Response code (Some payload)
      ∧ p_total payload = Some (total_attempts sess st ct attempts w).1.
Proof.
  induction attempts as [|attempt rest IH]; intros w; [by left|].
  simpl. destruct (sess (clock w)) as [code [payload|]| | | |] eqn:E.
  - destruct (raises_for_status code); [by left|].
    destruct (p_total payload) as [t|] eqn:Et; [|by left].
    right. exists (clock w), code, payload. by rewrite Et.
  - destruct (raises_for_status code); by left.
  - destruct (attempt <? _)%nat; [apply IH|by left].
  - destruct (attempt <? _)%nat; [apply IH|by left].
  - by left.
  - by left.
Qed.

Lemma total_attempts_clock (attempts : list nat) : ∀ w : World,
  (clock (total_attempts sess st ct attempts w).2 ≤ clock w + length attempts)%nat.
Proof.
  induction attempts as [|attempt rest IH]; intros w; simpl; [lia|].
  destruct (sess (clock w)) as [code [payload|]| | | |];
    repeat case_match; simpl; try lia.
  all: etrans; [apply IH|]; simpl; lia.
Qed.

End TotalFacts.

Ltac clock_offsets H w :=
  repeat match type of H with
         | context [(clock w + 0)%nat] => rewrite Nat.add_0_r in H
         | context [(clock w + 1)%nat] =>
             replace (clock w + 1)%nat with (S (clock w)) in H by lia
         | context [(clock w + 2)%nat] =>
             replace (clock w + 2)%nat with (S (S (clock w))) in H by lia
         end.

(** C10 as stated fails in its last part: an answer that declares a
    negative total is returned as it is. *)
Lemma negative_total_returned :
  fetch_category_total negative_total 2 2 fresh
  = (-1, mkWorld 1 [Request 2 2 1 0])
  ∧ (fetch_category_total negative_total 2 2 fresh).1 < 0.
Proof. split; vm_compute; done. Qed.

(** C10, as the code has it. After [k] connection or timeout errors, each
    followed by a sleep of [RETRY_BACKOFF * 2 ^ attempt], an outcome of
    another kind at attempt [k < MAX_RETRIES] ends the call at once with its
    answer: zero for an error status, a body that is no JSON object or any
    other exception, the declared total (zero when absent) for a good
    response.  After [MAX_RETRIES] such errors the call returns zero, with
    no sleep after the last one.  It never makes more than [MAX_RETRIES]
    requests, it always returns, and its result is zero or a total that an
    answer declared: non-negative whenever the declared totals are. *)
Theorem fetch_category_total_policy (sess : Session) (st ct : Z) (w : World) :
  (∀ k, (k < MAX_RETRIES)%nat →
        (∀ i, (i < k)%nat → retryable (sess (clock w + i)%nat) = true) →
        retryable (sess (clock w + k)%nat) = false →
        fetch_category_total sess st ct w
        = (answer (sess (clock w + k)%nat),
           mkWorld (clock w + k + 1)
             (log w ++ backoff_log (Request st ct 1 0) (seq 0 k)
                ++ [Request st ct 1 0])))
  ∧ ((∀ i, (i < MAX_RETRIES)%nat →
           retryable (sess (clock w + i)%nat) = true) →
     fetch_category_total sess st ct w
     = (0, mkWorld (clock w + MAX_RETRIES)
             (log w ++ backoff_log (Request st ct 1 0) (seq 0 (MAX_RETRIES - 1))
                ++ [Request st ct 1 0])))
  ∧ (∀ o, non_retryable_error o = true → retryable o = false ∧ answer o = 0)
  ∧ (∀ code payload, raises_for_status code = false →
       answer (Response code (Some payload)) = default 0 (p_total payload))
  ∧ (∀ attempt, wait_time attempt = RETRY_BACKOFF * 2 ^ Z.of_nat attempt)
  ∧ ((∀ n code payload t,
        sess n = Response code (Some payload) → p_total payload = Some t → 0 ≤ t) →
     0 ≤ (fetch_category_total sess st ct w).1)
  ∧ (clock (fetch_category_total sess st ct w).2 ≤ clock w + MAX_RETRIES)%nat.
Proof.
  split_and!.
  - intros k Hk Hretry Hlast. unfold fetch_category_total.
    change (seq 0 MAX_RETRIES) with [0; 1; 2]%nat.
    destruct k as [|[|[|k]]]; [| | |unfold MAX_RETRIES in Hk; lia].
    + clock_offsets Hlast w.
      rewrite total_attempts_answer by done.
      rewrite Nat.add_0_r. f_equal. f_equal. lia.
    + pose proof (Hretry 0%nat ltac:(lia)) as H0.
      clock_offsets H0 w. clock_offsets Hlast w.
      rewrite total_attempts_retry by (done || (unfold MAX_RETRIES; lia)).
      rewrite total_attempts_answer by done. simpl.
      replace (clock w + 1)%nat with (S (clock w)) by lia.
      f_equal. f_equal; [lia|]. by rewrite <- !(assoc (++)).
    + pose proof (Hretry 0%nat ltac:(lia)) as H0.
      pose proof (Hretry 1%nat ltac:(lia)) as H1.
      clock_offsets H0 w. clock_offsets H1 w. clock_offsets Hlast w.
      rewrite total_attempts_retry by (done || (unfold MAX_RETRIES; lia)).
      rewrite total_attempts_retry by (done || (unfold MAX_RETRIES; lia)).
      rewrite total_attempts_answer by done. simpl.
      replace (clock w + 2)%nat with (S (S (clock w))) by lia.
      f_equal. f_equal; [lia|]. by rewrite <- !(assoc (++)).
  - intros Hretry. unfold fetch_category_total.
    change (seq 0 MAX_RETRIES) with [0; 1; 2]%nat.
    pose proof (Hretry 0%nat ltac:(unfold MAX_RETRIES; lia)) as H0.
    pose proof (Hretry 1%nat ltac:(unfold MAX_RETRIES; lia)) as H1.
    pose proof (Hretry 2%nat ltac:(unfold MAX_RETRIES; lia)) as H2.
    clock_offsets H0 w. clock_offsets H1 w. clock_offsets H2 w.
    rewrite total_attempts_retry by (done || (unfold MAX_RETRIES; lia)).
    rewrite total_attempts_retry by (done || (unfold MAX_RETRIES; lia)).
    rewrite total_attempts_last by (done || (unfold MAX_RETRIES; lia)). simpl.
    f_equal. f_equal; [unfold MAX_RETRIES; lia|]. by rewrite <- !(assoc (++)).
  - intros [code [payload|]| | | |]; simpl; try done;
      destruct (raises_for_status code); simpl; done.
  - intros code payload H. simpl. by rewrite H.
  - done.
  - intros Hpos. unfold fetch_category_total.
    destruct (total_attempts_result sess st ct (seq 0 MAX_RETRIES) w)
      as [->|(n & code & payload & Hn & Ht)]; [done|].
    by eapply Hpos.
  - unfold fetch_category_total.
    etrans; [apply total_attempts_clock|]. by rewrite length_seq.
Qed.

Lemma fetch_category_total_policy_witness :
  fetch_category_total flaky_then_500 2 2 fresh
  = (0, mkWorld 3
          [Request 2 2 1 0; Sleep 1000; Request 2 2 1 0; Sleep 2000;
           Request 2 2 1 0]).
Proof.
  destruct (fetch_category_total_policy flaky_then_500 2 2 fresh) as [H _].
  refine (H 2%nat _ _ _).
  - unfold MAX_RETRIES. lia.
  - intros i Hi. destruct i as [|[|i]]; [done|done|lia].
  - done.
Defined.

End FetcherProofs.

(** ** Part V: further properties of the fetchers *)

Module FetcherExtras.
Import Fetcher Scenarios Ingestion FetcherProofs.

Lemma slept_app (evs1 evs2 : list Event) :
  slept (evs1 ++ evs2) = slept evs1 + slept evs2.
Proof.
  induction evs1 as [|[st ct lim o|ms] evs1 IH]; simpl; lia.
Qed.

Lemma wait_time_guarded (attempt : nat) :
  (attempt <? MAX_RETRIES - 1)%nat = true → 0 ≤ wait_time attempt ≤ 2000.
Proof.
  intros H%Nat.ltb_lt. unfold MAX_RETRIES in H.
  destruct attempt as [|[|attempt]]; [done|done|lia].
Qed.

Ltac log_arith :=
  unfold page_request; cbn [slept length]; rewrite ?Nat2Z.inj_succ; simpl; lia.

Ltac log_events :=
  repeat (apply Forall_cons; split;
          [first [by left | right; eexists; split; [reflexivity|lia]]|]);
  first [by apply Forall_nil_2 | eassumption].

Section PassFacts.
Variable sess : Session.

(** The log of the inner attempts: the old log, then page requests at the
    state's offset and sleeps of at most 10 s per attempt. *)
Lemma page_attempts_log (attempts : list nat) : ∀ (s s1 : FetchState) res,
  page_attempts sess attempts s = (res, s1) →
  ∃ evs, log (world s1) = log (world s) ++ evs
         ∧ 0 ≤ slept evs ≤ 10000 * Z.of_nat (length attempts)
         ∧ Forall (page_event s) evs.
Proof.
  induction attempts as [|attempt rest IH]; intros s s1 res H.
  - injection H as <- <-. exists []. rewrite app_nil_r.
    split_and!; [done|log_arith..|log_events].
  - cbn [page_attempts get] in H.
    destruct (sess (clock (world s))) as [code body| | | |].
    + destruct (code =? 429).
      { apply IH in H as (evs & Hl & Hs & Hf). cbn in Hl.
        exists (page_request s :: Sleep 10000 :: evs).
        rewrite Hl, <- !(assoc (++)). cbn [length]. split_and!; [done|log_arith..|].
        log_events. }
      destruct (raises_for_status code).
      { injection H as <- <-. exists [page_request s]. cbn [length].
        split_and!; [done|log_arith..|log_events]. }
      destruct body as [payload|];
        [|injection H as <- <-; exists [page_request s]; cbn [length];
          split_and!; [done|log_arith..|log_events]].
      destruct (default [] (p_data payload)) as [|i items].
      { injection H as <- <-. exists [page_request s]. cbn [length].
        split_and!; [done|log_arith..|log_events]. }
      destruct (_ >=? _); injection H as <- <-.
      * exists [page_request s]. cbn [length].
        split_and!; [done|log_arith..|log_events].
      * exists [page_request s; Sleep 500]. cbn [length]. cbn.
        rewrite <- !(assoc (++)).
        split_and!; [done|log_arith..|]. log_events.
    + destruct (attempt <? MAX_RETRIES - 1)%nat eqn:G.
      * apply wait_time_guarded in G.
        apply IH in H as (evs & Hl & Hs & Hf). cbn in Hl.
        exists (page_request s :: Sleep (wait_time attempt) :: evs).
        rewrite Hl, <- !(assoc (++)). cbn [length].
        split_and!; [done|log_arith..|].
        log_events.
      * apply IH in H as (evs & Hl & Hs & Hf). cbn in Hl.
        exists (page_request s :: evs).
        rewrite Hl, <- !(assoc (++)). cbn [length].
        split_and!; [done|log_arith..|]. log_events.
    + destruct (attempt <? MAX_RETRIES - 1)%nat eqn:G.
      * apply wait_time_guarded in G.
        apply IH in H as (evs & Hl & Hs & Hf). cbn in Hl.
        exists (page_request s :: Sleep (wait_time attempt) :: evs).
        rewrite Hl, <- !(assoc (++)). cbn [length].
        split_and!; [done|log_arith..|].
        log_events.
      * apply IH in H as (evs & Hl & Hs & Hf). cbn in Hl.
        exists (page_request s :: evs).
        rewrite Hl, <- !(assoc (++)). cbn [length].
        split_and!; [done|log_arith..|]. log_events.
    + injection H as <- <-. exists [page_request s]. cbn [length].
      split_and!; [done|log_arith..|log_events].
    + injection H as <- <-. exists [page_request s]. cbn [length].
      split_and!; [done|log_arith..|log_events].
Qed.

(** A page with items leaves the stats as [record_page] makes them. *)
Lemma page_attempts_fetched (attempts : list nat) :
  ∀ (s s1 : FetchState) i items,
  page_attempts sess attempts s = (Some (i :: items), s1) →
  stats s1 = stats (record_page s (i :: items)).
Proof.
  induction attempts as [|attempt rest IH]; intros s s1 i items H; [done|].
  cbn [page_attempts get] in H.
  destruct (sess (clock (world s))) as [code body| | | |]; try done.
  - destruct (code =? 429); [by apply IH in H|].
    destruct (raises_for_status code); [done|].
    destruct body as [payload|]; [|done].
    destruct (default [] (p_data payload)) as [|i' items']; [done|].
    destruct (_ >=? _); by injection H as <- <- <-.
  - by apply IH in H.
  - by apply IH in H.
Qed.

(** What one pass of the outer loop does to the category, the log, the
    accumulator and the counters. *)
Lemma pass_summary (s : FetchState) (r : Step) :
  outer_iteration sess s = r →
  subject_type (stats (step_state r)) = subject_type (stats s)
  ∧ collection_type (stats (step_state r)) = collection_type (stats s)
  ∧ total_items (stats (step_state r)) = total_items (stats s)
  ∧ (∃ evs, log (world (step_state r)) = log (world s) ++ evs
            ∧ 0 ≤ slept evs ≤ 30000 ∧ Forall (page_event s) evs)
  ∧ ((all_items (step_state r) = all_items s ∧ stats (step_state r) = stats s)
     ∨ ∃ i items,
         all_items (step_state r) = all_items s ++ i :: items
         ∧ stats (step_state r) = stats (record_page s (i :: items))
         ∧ ∀ s', r = Continue s' → offset s + 2 * LIMIT < total_items (stats s)).
Proof.
  unfold outer_iteration.
  destruct (page_attempts sess (seq 0 MAX_RETRIES) s) as [res s1] eqn:E.
  pose proof (page_attempts_inv sess _ _ _ _ E) as (Ht & _ & Hinv).
  pose proof (page_attempts_log _ _ _ _ E) as (evs & Hlog & Hsl & Hev).
  rewrite length_seq in Hsl. unfold MAX_RETRIES in Hsl.
  assert (∃ evs, log (world s1) = log (world s) ++ evs
                 ∧ 0 ≤ slept evs ≤ 30000 ∧ Forall (page_event s) evs) as Hl.
  { exists evs. split_and!; [done|lia..|done]. }
  destruct res as [[|i items]|].
  - intros <-. destruct Hinv as (Ha & _ & _ & Hs). simpl.
    rewrite Hs. split_and!; try done. by left.
  - pose proof (page_attempts_fetched _ _ _ _ _ E) as Hst.
    destruct Hinv as (Ha & _ & Ho).
    assert (∀ r', (r' = Break s1 ∨ r' = Continue s1) →
                  step_state r' = s1) as Hss by (by intros r' [->| ->]).
    intros <-.
    destruct (Z.geb_spec (offset s1 + LIMIT) (total_items (stats s1))) as [G|G];
      cbn [step_state]; rewrite Hst; (split_and!; try done);
      right; exists i, items; (split_and!; try done).
    intros s' [= <-]. rewrite Ht in G. lia.
  - destruct Hinv as (Ha & _ & _ & Hs). intros <-.
    destruct (_ >=? _); cbn; rewrite Hs; (split_and!; try done); by left.
Qed.

Lemma page_event_fetch_event (s : FetchState) (e : Event) :
  page_event s e → fetch_event (stats s) (offset s) e.
Proof.
  intros [->|H]; [|by right]. left. exists 0. split; [done|].
  unfold page_request. f_equal. lia.
Qed.

Lemma fetch_event_shift (st st' : CategoryStats) (base : Z) (e : Event) :
  subject_type st' = subject_type st →
  collection_type st' = collection_type st →
  fetch_event st' (base + LIMIT) e → fetch_event st base e.
Proof.
  intros Hs Hc [(k & Hk & ->)|H]; [|by right].
  left. exists (k + 1). split; [lia|]. rewrite Hs, Hc. f_equal.
  unfold LIMIT. lia.
Qed.

(** What a whole run of the loop does, from any state. *)
Lemma fetch_loop_summary (fuel : nat) : ∀ (s s' : FetchState) (n : nat),
  fetch_loop sess fuel s = Some (n, s') →
  subject_type (stats s') = subject_type (stats s)
  ∧ collection_type (stats s') = collection_type (stats s)
  ∧ total_items (stats s') = total_items (stats s)
  ∧ (∃ extra, all_items s' = all_items s ++ extra
       ∧ fetched_items (stats s')
         = fetched_items (stats s) + Z.of_nat (length extra)
       ∧ pages_fetched (stats s) ≤ pages_fetched (stats s')
       ∧ pages_fetched (stats s')
         ≤ pages_fetched (stats s) + Z.of_nat (length extra))
  ∧ pages_fetched (stats s')
    ≤ pages_fetched (stats s) + Z.max 0 (pending_pages s) + 1
  ∧ (∃ evs, log (world s') = log (world s) ++ evs
       ∧ 0 ≤ slept evs ≤ 30000 * Z.of_nat n
       ∧ Forall (fetch_event (stats s) (offset s)) evs).
Proof.
  induction fuel as [|fuel IH]; intros s s' n H; [done|].
  cbn [fetch_loop] in H.
  destruct (outer_iteration sess s) as [s1|s1] eqn:E.
  - injection H as <- <-.
    pose proof (pass_summary s _ E) as (Hs & Hc & Ht & (evs & Hl & Hsl & Hev) & Hd).
    cbn [step_state] in *.
    assert (Forall (fetch_event (stats s) (offset s)) evs) as Hev'.
    { eapply Forall_impl; [exact Hev|]. apply page_event_fetch_event. }
    destruct Hd as [[Ha Hst]|(i & items & Ha & Hst & _)].
    + rewrite Hst. split_and!; try done; try lia.
      * exists []. rewrite app_nil_r. simpl. split_and!; [done|lia..].
      * exists evs. split_and!; [done|lia..|done].
    + rewrite Hst. cbn [record_page stats fetched_items pages_fetched].
      split_and!; try done; try lia.
      * exists (i :: items). cbn [length]. split_and!; [done|lia..].
      * exists evs. split_and!; [done|lia..|done].
  - destruct (fetch_loop sess fuel s1) as [[m s2]|] eqn:F; [|done].
    injection H as <- <-.
    pose proof (pass_summary s _ E) as (Hs & Hc & Ht & (evs & Hl & Hsl & Hev) & Hd).
    cbn [step_state] in *.
    pose proof (outer_iteration_continue sess s s1 E) as (Ho & _).
    pose proof (pending_pages_next s s1 Ho Ht) as Hp.
    apply IH in F
      as (Hs' & Hc' & Ht' & (extra & Ha' & Hf' & Hp1 & Hp2) & Hpg
          & (evs' & Hl' & Hsl' & Hev')).
    assert (Forall (fetch_event (stats s) (offset s)) (evs ++ evs')) as Hall.
    { apply Forall_app. split.
      - eapply Forall_impl; [exact Hev|]. apply page_event_fetch_event.
      - eapply Forall_impl; [exact Hev'|]. intros e He.
        rewrite Ho in He. by eapply fetch_event_shift. }
    assert (∃ evs0, log (world s2) = log (world s) ++ evs0
              ∧ 0 ≤ slept evs0 ≤ 30000 * Z.of_nat (S m)
              ∧ Forall (fetch_event (stats s) (offset s)) evs0) as Hlog.
    { exists (evs ++ evs'). rewrite Hl', Hl, <- (assoc (++)), slept_app.
      split_and!; [done|lia..|done]. }
    destruct Hd as [[Ha Hst]|(i & items & Ha & Hst & Hcont)].
    + rewrite Hst in *. split_and!; try done; try congruence; try lia.
      exists extra. rewrite Ha', Ha. split_and!; [done|lia..].
    + pose proof (Hcont s1 eq_refl) as Hlt.
      pose proof (pending_pages_pos s Hlt) as Hpos.
      rewrite Hst in *. cbn [record_page stats fetched_items pages_fetched] in *.
      split_and!; try done; try congruence; try lia.
      exists ((i :: items) ++ extra). rewrite Ha', Ha, <- (assoc (++)).
      rewrite length_app. cbn [length] in *. split_and!; [done|lia..].
Qed.

End PassFacts.

(** *** The paged fetch as a whole *)

Lemma fetch_single_category_run (sess : Session) (st : CategoryStats) (w : World) :
  ∃ n s,
    fetch_loop sess (loop_bound (total_items st)) (init_state st w) = Some (n, s)
    ∧ fetch_single_category sess st w = Some (all_items s, stats s, world s)
    ∧ (n ≤ loop_bound (total_items st))%nat.
Proof.
  pose proof (measure_init st w) as Hm.
  destruct (fetch_loop_terminates sess (loop_bound (total_items st))
              (init_state st w) ltac:(done) Hm) as (n & s & E & Hn & _).
  exists n, s. split_and!; [done| |lia].
  unfold fetch_single_category. by rewrite E.
Qed.

Lemma pending_pages_init (st : CategoryStats) (w : World) :
  pending_pages (init_state st w) = ceil_div (total_items st) LIMIT - 2.
Proof.
  unfold pending_pages, ceil_div, LIMIT. simpl.
  replace (total_items st - 2 * 100 - 0 + 100 - 1)
    with (total_items st + 100 - 1 + (-2) * 100) by lia.
  rewrite Z.div_add by lia. lia.
Qed.

(** The counters of the stats object agree with what the fetch returns: the
    fetched count grows by the number of items returned, the page count by
    at least nothing and at most that number, and the category and its
    expected total are left alone. *)
Theorem fetch_counters_agree (sess : Session) (st : CategoryStats) (w : World) :
  ∃ items st' w',
    fetch_single_category sess st w = Some (items, st', w')
    ∧ fetched_items st' = fetched_items st + Z.of_nat (length items)
    ∧ pages_fetched st ≤ pages_fetched st'
    ∧ pages_fetched st' ≤ pages_fetched st + Z.of_nat (length items)
    ∧ subject_type st' = subject_type st
    ∧ collection_type st' = collection_type st
    ∧ total_items st' = total_items st.
Proof.
  destruct (fetch_single_category_run sess st w) as (n & s & E & -> & _).
  apply fetch_loop_summary in E
    as (Hs & Hc & Ht & (extra & Ha & Hf & Hp1 & Hp2) & _).
  simpl in *. subst extra.
  exists (all_items s), (stats s), (world s). done.
Qed.

(** The fetch never fetches more than [max 1 (ceil(total / LIMIT) - 1)]
    pages: when the expected total is more than one page, it stops at least
    one page short of [ceil(total / LIMIT)]. *)
Theorem fetch_pages_bound (sess : Session) (st : CategoryStats) (w : World) :
  ∃ items st' w',
    fetch_single_category sess st w = Some (items, st', w')
    ∧ pages_fetched st' - pages_fetched st
      ≤ Z.max 1 (ceil_div (total_items st) LIMIT - 1)
    ∧ (LIMIT < total_items st →
       pages_fetched st' - pages_fetched st < ceil_div (total_items st) LIMIT).
Proof.
  destruct (fetch_single_category_run sess st w) as (n & s & E & -> & _).
  apply fetch_loop_summary in E as (_ & _ & _ & _ & Hp & _).
  rewrite pending_pages_init in Hp. simpl in Hp.
  exists (all_items s), (stats s), (world s). split_and!; [done|lia|].
  intros Hlt.
  assert (2 ≤ ceil_div (total_items st) LIMIT); [|lia].
  unfold ceil_div, LIMIT in *. apply Z.div_le_lower_bound; lia.
Qed.


(** The time a fetch spends sleeping is bounded: at most 30 s for each pass
    of its loop, so at most [30 s * (ceil(total / LIMIT) + 3)] in all. *)
Theorem fetch_sleep_bound (sess : Session) (st : CategoryStats) (w : World) :
  ∃ items st' w',
    fetch_single_category sess st w = Some (items, st', w')
    ∧ slept (log w) ≤ slept (log w')
    ∧ slept (log w') - slept (log w)
      ≤ 30000 * (Z.max 0 (ceil_div (total_items st) LIMIT) + 3).
Proof.
  destruct (fetch_single_category_run sess st w) as (n & s & E & -> & Hn).
  apply fetch_loop_summary in E as (_ & _ & _ & _ & _ & (evs & Hl & Hs & _)).
  exists (all_items s), (stats s), (world s). simpl in Hl.
  rewrite Hl, slept_app. unfold loop_bound in Hn. split_and!; [done|lia|lia].
Qed.

(** *** The total check and the totals of all categories *)

Section TotalLog.
Variable sess : Session.

Lemma total_attempts_log (st ct : Z) (attempts : list nat) : ∀ w : World,
  ∃ evs, log (total_attempts sess st ct attempts w).2 = log w ++ evs
         ∧ 0 ≤ slept evs ≤ backoff_budget attempts
         ∧ Forall (total_event st ct) evs
         ∧ (clock w ≤ clock (total_attempts sess st ct attempts w).2
            ≤ clock w + length attempts)%nat.
Proof.
  induction attempts as [|attempt rest IH]; intros w.
  - exists []. rewrite app_nil_r. simpl. split_and!; [done|lia..|done|lia|lia].
  - assert (total_event st ct (Request st ct 1 0)) as Hrq by by left.
    assert (0 ≤ backoff_budget rest) as Hb.
    { destruct (IH w) as (? & _ & ? & _). lia. }
    assert (∃ evs, log (mkWorld (S (clock w)) (log w ++ [Request st ct 1 0]))
                   = log w ++ evs
                   ∧ 0 ≤ slept evs ≤ backoff_budget (attempt :: rest)
                   ∧ Forall (total_event st ct) evs) as Hstop.
    { exists [Request st ct 1 0]. cbn [backoff_budget slept log].
      split_and!; [done| |  |by repeat constructor].
      - lia.
      - destruct (attempt <? MAX_RETRIES - 1)%nat eqn:G; [|lia].
        apply wait_time_guarded in G. lia. }
    assert (∀ r : Z,
      ∃ evs, log (r, mkWorld (S (clock w)) (log w ++ [Request st ct 1 0])).2
             = log w ++ evs
             ∧ 0 ≤ slept evs ≤ backoff_budget (attempt :: rest)
             ∧ Forall (total_event st ct) evs
             ∧ (clock w
                ≤ clock (r, mkWorld (S (clock w)) (log w ++ [Request st ct 1 0])).2
                ≤ clock w + length (attempt :: rest))%nat) as Hret.
    { intros r. destruct Hstop as (evs & ? & ? & ?). exists evs.
      cbn [snd clock length]. split_and!; first [done | lia]. }
    assert (retryable (sess (clock w)) = true →
      ∃ evs, log (total_attempts sess st ct (attempt :: rest) w).2 = log w ++ evs
             ∧ 0 ≤ slept evs ≤ backoff_budget (attempt :: rest)
             ∧ Forall (total_event st ct) evs
             ∧ (clock w ≤ clock (total_attempts sess st ct (attempt :: rest) w).2
                ≤ clock w + length (attempt :: rest))%nat) as Hretry.
    { intros Hr. destruct (attempt <? MAX_RETRIES - 1)%nat eqn:G.
      - rewrite total_attempts_retry by (done || by apply Nat.ltb_lt).
        pose proof (wait_time_guarded _ G) as Hw.
        destruct (IH (mkWorld (S (clock w))
                        (log w ++ [Request st ct 1 0; Sleep (wait_time attempt)])))
          as (evs & Hl & Hs & Hf & Hc).
        exists (Request st ct 1 0 :: Sleep (wait_time attempt) :: evs).
        rewrite Hl. cbn [backoff_budget slept log clock length] in *. rewrite G.
        rewrite <- (assoc (++)).
        split_and!; [done|lia|lia| |lia|lia].
        apply Forall_cons. split; [done|]. apply Forall_cons. split; [|done].
        right. eexists. split; [done|lia].
      - rewrite total_attempts_last by (done || by apply Nat.ltb_nlt).
        apply Hret. }
    destruct (retryable (sess (clock w))) eqn:Hr.
    + by apply Hretry.
    + rewrite total_attempts_answer by done. apply Hret.
Qed.

End TotalLog.

(** The total check only ever asks for one item at offset 0 of its own
    category, keeps the log it was given, and sleeps at most 3 s in all
    (1 s and 2 s between its three attempts). *)
Theorem total_check_log (sess : Session) (st ct : Z) (w : World) :
  ∃ evs, log (fetch_category_total sess st ct w).2 = log w ++ evs
         ∧ Forall (total_event st ct) evs
         ∧ 0 ≤ slept evs ≤ 3000.
Proof.
  unfold fetch_category_total.
  destruct (total_attempts_log sess st ct (seq 0 MAX_RETRIES) w)
    as (evs & Hl & Hs & Hf & _).
  exists evs. split_and!; [done|done|lia|].
  change (backoff_budget (seq 0 MAX_RETRIES)) with 3000 in Hs. lia.
Qed.

Section TotalsLoop.
Variable sess : Session.

Lemma total_event_check (st ct : Z) (e : Event) :
  total_event st ct e → check_event e.
Proof. intros [->|H]; [left; by exists st, ct|by right]. Qed.

Lemma totals_loop_summary (keys : list (Z * Z)) : ∀ w : World,
  map fst (totals_loop sess keys w).1 = keys
  ∧ Forall fresh_stats (totals_loop sess keys w).1
  ∧ (clock w ≤ clock (totals_loop sess keys w).2
     ≤ clock w + MAX_RETRIES * length keys)%nat
  ∧ ∃ evs, log (totals_loop sess keys w).2 = log w ++ evs
           ∧ Forall check_event evs
           ∧ 0 ≤ slept evs ≤ 3300 * Z.of_nat (length keys).
Proof.
  induction keys as [|[st ct] rest IH]; intros w.
  - simpl. split_and!; [done|done|lia|lia|].
    exists []. rewrite app_nil_r. simpl. done.
  - cbn [totals_loop].
    destruct (fetch_category_total sess st ct w) as [total w1] eqn:E.
    pose proof (total_check_log sess st ct w) as (evs1 & Hl1 & Hf1 & Hs1).
    pose proof (total_attempts_log sess st ct (seq 0 MAX_RETRIES) w)
      as (_ & _ & _ & _ & Hc1).
    fold (fetch_category_total sess st ct w) in Hc1.
    rewrite E in Hl1, Hc1. cbn [snd] in Hl1, Hc1. rewrite length_seq in Hc1.
    specialize (IH (sleep 300 w1)).
    destruct (totals_loop sess rest (sleep 300 w1)) as [all_stats w2].
    destruct IH as (Hk & Hfr & Hc & (evs & Hl & Hf & Hs)).
    cbn [fst snd] in *. cbn [map fst length]. cbn [sleep clock] in Hc.
    split_and!.
    + by rewrite Hk.
    + apply Forall_cons. split; [done|done].
    + lia.
    + unfold MAX_RETRIES in *. lia.
    + exists (evs1 ++ Sleep 300 :: evs). rewrite Hl. cbn [sleep log].
      rewrite Hl1, <- !(assoc (++)). split_and!; [done| |  |].
      * apply Forall_app. split.
        -- eapply Forall_impl; [exact Hf1|]. apply total_event_check.
        -- apply Forall_cons. split; [|done]. right. eexists. split; [done|lia].
      * rewrite slept_app. cbn [slept]. lia.
      * rewrite slept_app. cbn [slept]. rewrite Nat2Z.inj_succ. lia.
Qed.

End TotalsLoop.



(** *** The collection and the run *)


Section CollectFacts.
Context {RawRow AnalyticsRow : Type}.
Variable raw_row : Z → Z → Item → RawRow.
Variable analytics_row : Z → Z → Item → AnalyticsRow.
Variable sess : Session.


End CollectFacts.




Section Outage.
Variable sess : Session.
Hypothesis no_total : ∀ n, answer (sess n) = 0.

Lemma total_attempts_zero (st ct : Z) (attempts : list nat) : ∀ w : World,
  (total_attempts sess st ct attempts w).1 = 0.
Proof.
  induction attempts as [|attempt rest IH]; intros w; [done|].
  destruct (retryable (sess (clock w))) eqn:Hr.
  - destruct (attempt <? MAX_RETRIES - 1)%nat eqn:G.
    + rewrite total_attempts_retry by (done || by apply Nat.ltb_lt). apply IH.
    + by rewrite total_attempts_last by (done || by apply Nat.ltb_nlt).
  - rewrite total_attempts_answer by done. apply no_total.
Qed.

Lemma totals_loop_zero (keys : list (Z * Z)) : ∀ w : World,
  Forall (λ e, total_items e.2 = 0) (totals_loop sess keys w).1.
Proof.
  induction keys as [|[st ct] rest IH]; intros w; [by constructor|].
  cbn [totals_loop].
  pose proof (total_attempts_zero st ct (seq 0 MAX_RETRIES) w) as Hz.
  fold (fetch_category_total sess st ct w) in Hz.
  destruct (fetch_category_total sess st ct w) as [total w1]. cbn [fst] in Hz.
  specialize (IH (sleep 300 w1)).
  destruct (totals_loop sess rest (sleep 300 w1)) as [all_stats w2].
  cbn [fst] in *. apply Forall_cons. split; [by subst|done].
Qed.

End Outage.

(** When every answer to a total check resolves to zero (an error of any
    kind, or a declared total of 0), the run reports no data after at most
    36 requests, all of them total checks: no page is ever requested. *)
Theorem main_without_totals {RawRow AnalyticsRow : Type}
    (raw_row : Z → Z → Item → RawRow)
    (analytics_row : Z → Z → Item → AnalyticsRow)
    (sess : Session) (w : World) :
  (∀ n, answer (sess n) = 0) →
  ∃ w' evs, main raw_row analytics_row sess w = Some (NoData, w')
            ∧ (clock w' ≤ clock w + 36)%nat
            ∧ log w' = log w ++ evs
            ∧ Forall check_event evs.
Proof.
  intros Hno. unfold main.
  pose proof (totals_loop_zero sess Hno
                (list_prod SUBJECT_TYPES COLLECTION_TYPES) w) as Hz.
  pose proof (totals_loop_summary sess
                (list_prod SUBJECT_TYPES COLLECTION_TYPES) w)
    as (_ & _ & Hc & (evs & Hl & He & _)).
  fold (get_all_category_totals sess w) in Hz, Hc, Hl.
  destruct (get_all_category_totals sess w) as [all_stats w1]. cbn [fst snd] in *.
  destruct (collect_all_data_all_empty raw_row analytics_row sess all_stats w1 Hz)
    as (c & -> & -> & _ & ->).
  exists w1, evs. split_and!; [done| |done|done].
  change (length (list_prod SUBJECT_TYPES COLLECTION_TYPES)) with 12%nat in Hc.
  unfold MAX_RETRIES in Hc. lia.
Qed.

Lemma main_without_totals_witness :
  ∃ w' evs, main (λ _ _ i, i) (λ _ _ i, i) always_down fresh = Some (NoData, w')
            ∧ (clock w' ≤ clock fresh + 36)%nat
            ∧ log w' = log fresh ++ evs
            ∧ Forall check_event evs.
Proof.
  exact (main_without_totals (λ _ _ i, i) (λ _ _ i, i) always_down fresh
           (λ _, eq_refl)).
Defined.

End FetcherExtras.

(** ** Part VI: further properties of the reconciler *)

Module ReconcilerExtras.
Import Reconciler ReconcilerLog Scenarios ReconcilerProofs.

(** Against a target with the keys of the source, nothing is inserted and
    every keyed source row is an update. *)
Lemma reconcile_same_keys (df_source df_target : DataFrame) :
  id_set df_target = id_set df_source →
  df_new df_source df_target = []
  ∧ df_updated df_source df_target = df_source_with_id df_source.
Proof.
  intros Hk.
  assert (target_id_set df_target = source_id_set df_source) as Ht.
  { by rewrite target_id_set_eq, source_id_set_eq. }
  split.
  - unfold df_new. apply filter_none. intros r _.
    unfold isin. destruct (subject_id r); [|done].
    apply bool_decide_eq_false. unfold insert_ids. rewrite Ht. set_solver.
  - unfold df_updated. apply filter_all. intros r Hr.
    apply elem_of_filter_mask in Hr as [Hr Hna].
    unfold notna in Hna. destruct (subject_id r) as [k|] eqn:Hkey; [|done].
    apply isin_true. exists k. split; [done|].
    unfold common_ids. rewrite Ht.
    assert (k ∈ source_id_set df_source); [|set_solver].
    rewrite source_id_set_eq. apply elem_of_id_set. eauto.
Qed.

Lemma reconcile_settled (df_source df_target : DataFrame) :
  df_target ≡ₚ df_source →
  reconcile df_source df_target
  = df_source_with_id df_source ++ df_source_na_id df_source.
Proof.
  intros Hp. destruct (is_empty df_target) eqn:E.
  - destruct df_target; [|done].
    apply Permutation_nil in Hp. by subst.
  - rewrite reconcile_diff_path by done.
    destruct (reconcile_same_keys df_source df_target) as [-> ->]; [|done].
    by apply id_set_perm.
Qed.

(** With an unchanged source, the second run settles the target: it is the
    keyed source rows followed by the keyless ones, in the source's order,
    whatever the target held before the first run, and every later run
    writes that same frame again. *)
Theorem reconcile_converges (df_source df_target : DataFrame) :
  reconcile df_source (reconcile df_source df_target)
  = df_source_with_id df_source ++ df_source_na_id df_source
  ∧ reconcile df_source (df_source_with_id df_source ++ df_source_na_id df_source)
    = df_source_with_id df_source ++ df_source_na_id df_source
  ∧ (∀ df, df ≡ₚ df_source →
       reconcile df_source df
       = df_source_with_id df_source ++ df_source_na_id df_source).
Proof.
  split_and!.
  - apply reconcile_settled, reconcile_perm.
  - apply reconcile_settled, source_split_perm.
  - apply reconcile_settled.
Qed.

Lemma size_difference_both (X Y : gset Z) :
  Z.of_nat (size (X ∖ Y)) - Z.of_nat (size (Y ∖ X))
  = Z.of_nat (size X) - Z.of_nat (size Y).
Proof.
  pose proof (size_union_alt X Y) as H1.
  pose proof (size_union_alt Y X) as H2.
  assert (X ∪ Y = Y ∪ X) as E by set_solver. rewrite E in H1. lia.
Qed.

Lemma length_keyed_unique (df : DataFrame) :
  unique_keys df → size (id_set df) = length (df_source_with_id df).
Proof.
  unfold unique_keys, id_set, df_source_with_id. intros H.
  rewrite size_list_to_set by done.
  induction df as [|r df IH]; [done|].
  cbn [List.filter]. unfold notna at 1.
  destruct (subject_id r) as [k|] eqn:E; cbn [omap list_omap] in *;
    rewrite E in *; cbn in *.
  - f_equal. apply IH. by apply NoDup_cons in H as [_ H].
  - by apply IH.
Qed.

(** The two figures the diff path logs at its end. The final record count
    is the number of source rows. The net change is the number of distinct
    source keys minus the number of distinct target keys; when neither
    frame repeats a key it is the difference between their numbers of keyed
    rows. *)
Theorem logged_figures (df_source df_target : DataFrame) :
  final_record_count df_source df_target = length df_source
  ∧ net_change df_source df_target
    = Z.of_nat (size (source_id_set df_source))
      - Z.of_nat (size (target_id_set df_target))
  ∧ (unique_keys df_source → unique_keys df_target →
     net_change df_source df_target
     = Z.of_nat (length (df_source_with_id df_source))
       - Z.of_nat (length (df_target_with_id df_target))).
Proof.
  assert (net_change df_source df_target
          = Z.of_nat (size (source_id_set df_source))
            - Z.of_nat (size (target_id_set df_target))) as Hn.
  { unfold net_change, insert_ids, delete_ids. apply size_difference_both. }
  split_and!.
  - unfold final_record_count. rewrite df_combined_nil. cbn [app].
    rewrite (assoc (++)), df_new_updated_perm, source_split_perm. done.
  - exact Hn.
  - intros Hs Ht. rewrite Hn, source_id_set_eq, target_id_set_eq.
    rewrite (length_keyed_unique _ Hs), (length_keyed_unique _ Ht). done.
Qed.


End ReconcilerExtras.

(** ** Part VII: frames prepared for MySQL *)

Module FramesProofs.
Import Frames.

Lemma elem_of_filter_bool {A} (p : A → bool) (l : list A) (x : A) :
  x ∈ List.filter p l ↔ x ∈ l ∧ p x = true.
Proof. rewrite !list_elem_of_In. apply List.filter_In. Qed.

(** The guarded drop of [load_bangumi_data_to_mysql] never raises: whatever
    columns the analytics frame has, the result is the frame without the
    columns of [columns_to_drop], the others in their order and untouched;
    the unguarded [drop] of the whole list raises as soon as one of its
    columns is missing. *)
Theorem drop_unnecessary_ok (df_analytics : Frame) :
  drop_unnecessary df_analytics
  = Some (List.filter (λ c, negb (bool_decide (c.1 ∈ columns_to_drop)))
            df_analytics)
  ∧ (∀ l, l ∈ columns_to_drop → l ∉ columns df_analytics →
          drop columns_to_drop df_analytics = None).
Proof.
  split.
  - unfold drop_unnecessary.
    set (existing := List.filter
                       (λ col, bool_decide (col ∈ columns df_analytics))
                       columns_to_drop).
    assert (∀ c, c ∈ df_analytics →
                 bool_decide (c.1 ∈ existing)
                 = bool_decide (c.1 ∈ columns_to_drop)) as Hsame.
    { intros c Hc. apply bool_decide_ext. unfold existing.
      rewrite elem_of_filter_bool, bool_decide_eq_true.
      assert (c.1 ∈ columns df_analytics) by (apply list_elem_of_fmap; eauto).
      tauto. }
    assert (List.filter (λ c, negb (bool_decide (c.1 ∈ existing))) df_analytics
            = List.filter (λ c, negb (bool_decide (c.1 ∈ columns_to_drop)))
                df_analytics) as Hf.
    { apply List.filter_ext_in. intros c Hc%list_elem_of_In.
      by rewrite Hsame. }
    assert (drop existing df_analytics
            = Some (List.filter
                      (λ c, negb (bool_decide (c.1 ∈ columns_to_drop)))
                      df_analytics)) as Hdrop.
    { unfold drop.
      assert (forallb (λ l, bool_decide (l ∈ columns df_analytics)) existing
              = true) as ->.
      { apply forallb_forall. intros l Hl%list_elem_of_In.
        unfold existing in Hl. by apply elem_of_filter_bool in Hl as [_ Hl]. }
      by rewrite Hf. }
    clearbody existing. destruct existing as [|e rest]; [|exact Hdrop].
    f_equal. rewrite <- Hf. symmetry.
    apply ReconcilerProofs.filter_all. intros c _.
    by rewrite bool_decide_eq_false_2 by apply not_elem_of_nil.
  - intros l Hl Hnot. unfold drop.
    assert (forallb (λ l, bool_decide (l ∈ columns df_analytics)) columns_to_drop
            = false) as ->; [|done].
    apply not_true_is_false. intros Hall.
    rewrite forallb_forall in Hall.
    specialize (Hall l (proj1 (list_elem_of_In _ _) Hl)).
    by apply bool_decide_eq_true in Hall.
Qed.

Section PrepareFacts.
Variable dumps : list string → string.
Variable is_object : Column → bool.

Lemma notna_convert (v : Value) : notna (convert dumps v) = notna v.
Proof. by destruct v. Qed.

Lemma is_list_convert (v : Value) : is_list (convert dumps v) = false.
Proof. by destruct v. Qed.

Lemma filter_notna_convert (c : Column) :
  List.filter notna (map (convert dumps) c)
  = map (convert dumps) (List.filter notna c).
Proof.
  induction c as [|v c IH]; [done|].
  cbn [map List.filter]. rewrite notna_convert.
  destruct (notna v); cbn [map]; by rewrite IH.
Qed.

Lemma sample_elem_of (c : Column) (v : Value) : sample c = Some v → v ∈ c.
Proof.
  unfold sample. destruct (List.filter notna c) as [|x l] eqn:E; [done|].
  intros [= ->].
  assert (v ∈ List.filter notna c) as H by (rewrite E; left).
  by apply elem_of_filter_bool in H as [H _].
Qed.

Lemma prepare_column_cases (c : Column) :
  prepare_column dumps is_object c = c
  ∨ (prepare_column dumps is_object c = map (convert dumps) c
     ∧ ∃ l, sample c = Some (VList l)).
Proof.
  unfold prepare_column, sample. destruct (is_object c); [|by left].
  destruct (List.filter notna c) as [|v rest]; [by left|].
  destruct v; try by left. right. eauto.
Qed.

End PrepareFacts.

(** Whether a column is converted is decided by its first non-null cell
    alone. If that cell is a list, every list of the column becomes its JSON
    text and no list is left; if it is not a list, or the column has no
    non-null cell, the column is left as it is, lists further down
    included. *)
Theorem prepare_by_sample (dumps : list string → string)
    (is_object : Column → bool) (c : Column) :
  dtype_sound is_object →
  (∀ l, sample c = Some (VList l) →
        prepare_column dumps is_object c = map (convert dumps) c
        ∧ Forall (λ x, is_list x = false) (prepare_column dumps is_object c))
  ∧ ((∀ l, sample c ≠ Some (VList l)) → prepare_column dumps is_object c = c).
Proof.
  intros Hd. split.
  - intros l Hs.
    assert (prepare_column dumps is_object c = map (convert dumps) c) as E.
    { unfold prepare_column. rewrite (Hd c l) by by apply sample_elem_of.
      unfold sample in Hs.
      destruct (List.filter notna c) as [|v rest]; [done|].
      cbn in Hs. by injection Hs as ->. }
    split; [done|]. rewrite E. apply Forall_fmap, Forall_true.
    intros x. apply is_list_convert.
  - intros Hs. destruct (prepare_column_cases dumps is_object c)
      as [E|[_ [l Hl]]]; [done|]. by destruct (Hs l).
Qed.

Lemma prepare_by_sample_witness :
  prepare_column dumps_example dtype_example tags_column
  = [VNone; VStr "a, b"; VStr ""]%string
  ∧ prepare_column dumps_example dtype_example mixed_column = mixed_column.
Proof.
  assert (dtype_sound dtype_example) as Hd.
  { intros c l Hl. unfold dtype_example. apply existsb_exists.
    exists (VList l). split; [by apply list_elem_of_In|done]. }
  destruct (prepare_by_sample dumps_example dtype_example tags_column Hd)
    as [H1 _].
  destruct (prepare_by_sample dumps_example dtype_example mixed_column Hd)
    as [_ H2].
  split.
  - exact (proj1 (H1 ["a"; "b"]%string eq_refl)).
  - apply H2. intros l. vm_compute. discriminate.
Defined.

(** The preparation keeps the shape of the frame and touches lists only:
    the columns keep their names and order, every cell stays as it is or,
    being a list, becomes the JSON text of that list; preparing a prepared
    frame changes nothing. *)
Theorem prepare_frame (dumps : list string → string)
    (is_object : Column → bool) (df : Frame) :
  columns (prepare_dataframe_for_mysql dumps is_object df) = columns df
  ∧ Forall2 (λ col col',
       Forall2 (λ v v', v' = v ∨ ∃ l, v = VList l ∧ v' = VStr (dumps l))
         col.2 col'.2)
      df (prepare_dataframe_for_mysql dumps is_object df)
  ∧ prepare_dataframe_for_mysql dumps is_object
      (prepare_dataframe_for_mysql dumps is_object df)
    = prepare_dataframe_for_mysql dumps is_object df.
Proof.
  unfold prepare_dataframe_for_mysql, columns. split_and!.
  - rewrite <- list_fmap_compose. by apply list_fmap_ext.
  - apply Forall2_fmap_r, Forall_Forall2_diag, Forall_true. intros [name c].
    simpl. destruct (prepare_column_cases dumps is_object c) as [->|[-> _]].
    + apply Forall_Forall2_diag, Forall_true. by left.
    + apply Forall2_fmap_r, Forall_Forall2_diag, Forall_true.
      intros [| | |l]; simpl; eauto.
  - rewrite <- list_fmap_compose. apply list_fmap_ext. intros i [name c] _.
    cbn. f_equal.
    destruct (prepare_column_cases dumps is_object c) as [E0|[-> [l Hl]]].
    + by rewrite !E0.
    + destruct (prepare_column_cases dumps is_object (map (convert dumps) c))
        as [E|[_ [l' Hl']]]; [done|]. exfalso.
      unfold sample in Hl'. rewrite filter_notna_convert in Hl'.
      destruct (List.filter notna c) as [|v rest]; [done|].
      cbn in Hl'. injection Hl' as Hl'.
      pose proof (is_list_convert dumps v) as Hn. rewrite Hl' in Hn. done.
Qed.

End FramesProofs.

(** ** Part VIII: the top tags *)

Module ProjectorProofs.
Import Projector.

Section TagFacts.
Context {V : Type}.
Implicit Types tags : list (Tag V).

Lemma tag_entries_eq tags (i : nat) :
  tag_entries tags i
  = [(tag_key i "name", name_at tags i); (tag_key i "count", count_at tags i)].
Proof.
  unfold tag_entries, name_at, count_at.
  by destruct (tags !! i) as [[name count|]|].
Qed.

Lemma extract_top_tags_S tags (n : nat) :
  extract_top_tags tags (S n) = extract_top_tags tags n ++ tag_entries tags n.
Proof.
  unfold extract_top_tags. rewrite seq_S, map_app, concat_app. simpl.
  by rewrite app_nil_r.
Qed.

Lemma extract_top_tags_length tags (n : nat) :
  length (extract_top_tags tags n) = (2 * n)%nat.
Proof.
  induction n as [|n IH]; [done|].
  rewrite extract_top_tags_S, length_app, IH, tag_entries_eq. simpl. lia.
Qed.

Lemma extract_top_tags_lookup tags (n i : nat) :
  (i < n)%nat →
  extract_top_tags tags n !! (2 * i)%nat
  = Some (tag_key i "name", name_at tags i)
  ∧ extract_top_tags tags n !! (2 * i + 1)%nat
    = Some (tag_key i "count", count_at tags i).
Proof.
  induction n as [|n IH]; intros Hi; [lia|].
  rewrite extract_top_tags_S.
  destruct (decide (i < n)%nat) as [Hlt|Hge].
  - destruct (IH Hlt) as [H1 H2].
    rewrite !lookup_app_l by (rewrite extract_top_tags_length; lia). done.
  - assert (i = n) as -> by lia.
    rewrite !lookup_app_r by (rewrite extract_top_tags_length; lia).
    rewrite extract_top_tags_length, tag_entries_eq.
    replace (2 * n - 2 * n)%nat with 0%nat by lia.
    replace (2 * n + 1 - 2 * n)%nat with 1%nat by lia. done.
Qed.

End TagFacts.

(** [extract_top_tags] always returns [2 * top_n] entries, whatever the
    tags: the name and the count of tag [i] where the array has an object
    at [i], [None] for both where it is shorter or holds something else;
    tags past [top_n] play no part. With the default [top_n = 5] the keys
    are the ten distinct names [tag_1_name] to [tag_5_count]. *)
Theorem extract_top_tags_entries {V : Type} (tags : list (Tag V)) (top_n : nat) :
  length (extract_top_tags tags top_n) = (2 * top_n)%nat
  ∧ (∀ i, (i < top_n)%nat →
       extract_top_tags tags top_n !! (2 * i)%nat
       = Some (tag_key i "name", name_at tags i)
       ∧ extract_top_tags tags top_n !! (2 * i + 1)%nat
         = Some (tag_key i "count", count_at tags i))
  ∧ (∀ i, (length tags ≤ i)%nat → name_at tags i = None ∧ count_at tags i = None)
  ∧ extract_top_tags (take top_n tags) top_n = extract_top_tags tags top_n
  ∧ map fst (extract_top_tags tags 5)
    = ["tag_1_name"; "tag_1_count"; "tag_2_name"; "tag_2_count";
       "tag_3_name"; "tag_3_count"; "tag_4_name"; "tag_4_count";
       "tag_5_name"; "tag_5_count"]%string.
Proof.
  split_and!.
  - apply extract_top_tags_length.
  - intros i Hi. by apply extract_top_tags_lookup.
  - intros i Hi. unfold name_at, count_at.
    by rewrite (lookup_ge_None_2 tags i Hi).
  - unfold extract_top_tags. f_equal. apply map_ext_in.
    intros i Hi%in_seq. unfold tag_entries.
    by rewrite lookup_take_lt by lia.
  - unfold extract_top_tags. cbn [seq map concat].
    rewrite !tag_entries_eq. vm_compute. done.
Qed.

End ProjectorProofs.

(** ** Part IX: the Notion side *)

Module NotionProofs.
Import Notion.

Ltac n_offsets H w :=
  repeat match type of H with
         | context [(n_clock w + 0)%nat] => rewrite Nat.add_0_r in H
         | context [(n_clock w + 1)%nat] =>
             replace (n_clock w + 1)%nat with (S (n_clock w)) in H by lia
         | context [(n_clock w + 2)%nat] =>
             replace (n_clock w + 2)%nat with (S (S (n_clock w))) in H by lia
         end.

Ltac nclk := cbn [fst snd sent n_sleep n_clock]; lia.

(** [soft_delete_record] reports success exactly when an attempt among its
    three is answered with status 200 after nothing but connection errors;
    it makes at most three requests. *)
Theorem soft_delete_record_true (sess : nat → Answer unit) (w : NWorld) :
  ((soft_delete_record sess w).1 = true
   ↔ ∃ k, (k < max_retries)%nat
          ∧ (∀ i, (i < k)%nat → sess (n_clock w + i)%nat = ConnectionError)
          ∧ sess (n_clock w + k)%nat = Status 200 ())
  ∧ (n_clock w < n_clock (soft_delete_record sess w).2
     ≤ n_clock w + max_retries)%nat.
Proof.
  unfold soft_delete_record, max_retries. cbn [seq soft_delete_attempts].
  unfold max_retries. cbn [Nat.sub Nat.ltb Nat.leb sent n_sleep n_clock].
  destruct (sess (n_clock w)) as [c0 []| |] eqn:E0; cbn [fst snd n_clock].
  - split; [|nclk]. split.
    + intros ->%Z.eqb_eq. exists 0%nat. rewrite Nat.add_0_r.
      split_and!; [lia|intros; lia|done].
    + intros (k & Hk & Hc & Hs). destruct k as [|k].
      * rewrite Nat.add_0_r, E0 in Hs. by injection Hs as ->.
      * specialize (Hc 0%nat ltac:(lia)). rewrite Nat.add_0_r, E0 in Hc. done.
  - destruct (sess (S (n_clock w))) as [c1 []| |] eqn:E1; cbn [fst snd n_clock].
    + split; [|nclk]. split.
      * intros ->%Z.eqb_eq. exists 1%nat. split_and!; [lia| |].
        -- intros i Hi. assert (i = 0)%nat as -> by lia.
           by rewrite Nat.add_0_r.
        -- by rewrite Nat.add_1_r.
      * intros (k & Hk & Hc & Hs). destruct k as [|[|k]].
        -- rewrite Nat.add_0_r, E0 in Hs. done.
        -- rewrite Nat.add_1_r, E1 in Hs. by injection Hs as ->.
        -- specialize (Hc 1%nat ltac:(lia)). rewrite Nat.add_1_r, E1 in Hc. done.
    + destruct (sess (S (S (n_clock w)))) as [c2 []| |] eqn:E2;
        cbn [fst snd n_clock]; (split; [|nclk]); split.
      * intros ->%Z.eqb_eq. exists 2%nat. split_and!; [lia| |].
        -- intros i Hi. destruct i as [|[|i]]; [| |lia].
           ++ by rewrite Nat.add_0_r.
           ++ by rewrite Nat.add_1_r.
        -- by replace (n_clock w + 2)%nat with (S (S (n_clock w))) by lia.
      * intros (k & Hk & Hc & Hs). destruct k as [|[|[|k]]]; [| | |lia].
        -- rewrite Nat.add_0_r, E0 in Hs. done.
        -- rewrite Nat.add_1_r, E1 in Hs. done.
        -- replace (n_clock w + 2)%nat with (S (S (n_clock w))) in Hs by lia.
           rewrite E2 in Hs. by injection Hs as ->.
      * done.
      * intros (k & Hk & Hc & Hs). destruct k as [|[|[|k]]]; [| | |lia].
        -- rewrite Nat.add_0_r, E0 in Hs. done.
        -- rewrite Nat.add_1_r, E1 in Hs. done.
        -- replace (n_clock w + 2)%nat with (S (S (n_clock w))) in Hs by lia.
           rewrite E2 in Hs. done.
      * done.
      * intros (k & Hk & Hc & Hs). destruct k as [|[|[|k]]]; [| | |lia].
        -- rewrite Nat.add_0_r, E0 in Hs. done.
        -- rewrite Nat.add_1_r, E1 in Hs. done.
        -- replace (n_clock w + 2)%nat with (S (S (n_clock w))) in Hs by lia.
           rewrite E2 in Hs. done.
    + split; [|nclk]. split; [done|].
      intros (k & Hk & Hc & Hs). destruct k as [|[|k]].
      * rewrite Nat.add_0_r, E0 in Hs. done.
      * rewrite Nat.add_1_r, E1 in Hs. done.
      * specialize (Hc 1%nat ltac:(lia)). rewrite Nat.add_1_r, E1 in Hc. done.
  - split; [|nclk]. split; [done|].
    intros (k & Hk & Hc & Hs). destruct k as [|k].
    + rewrite Nat.add_0_r, E0 in Hs. done.
    + specialize (Hc 0%nat ltac:(lia)). rewrite Nat.add_0_r, E0 in Hc. done.
Qed.

Section QueryFacts.
Variable sess : nat → Answer (option QueryResult).

Lemma query_attempts_retry (attempt : nat) (rest : list nat) (st : QState) :
  sess (n_clock (q_world st)) = ConnectionError →
  (attempt < max_retries - 1)%nat →
  query_attempts sess (attempt :: rest) st
  = query_attempts sess rest (q_retried attempt st).
Proof.
  intros E Hlt%Nat.ltb_lt. cbn [query_attempts]. by rewrite E, Hlt.
Qed.

(** The inner loop after [k < 3] connection errors, at the attempt that is
    answered otherwise. *)
Lemma query_attempts_after (k : nat) (st : QState) :
  (k < max_retries)%nat →
  (∀ i, (i < k)%nat → sess (n_clock (q_world st) + i)%nat = ConnectionError) →
  ∃ st', all_records st' = all_records st
         ∧ n_clock (q_world st') = (n_clock (q_world st) + k)%nat
         ∧ query_attempts sess (seq 0 max_retries) st
           = query_attempts sess (seq k (max_retries - k)) st'.
Proof.
  unfold max_retries. intros Hk Hc.
  destruct k as [|[|[|k]]]; [| | |lia].
  - exists st. rewrite Nat.add_0_r. done.
  - pose proof (Hc 0%nat ltac:(lia)) as H0. rewrite Nat.add_0_r in H0.
    exists (q_retried 0 st). cbn [seq Nat.sub].
    rewrite query_attempts_retry by (done || (unfold max_retries; lia)).
    split_and!; [done|simpl; lia|done].
  - pose proof (Hc 0%nat ltac:(lia)) as H0. rewrite Nat.add_0_r in H0.
    pose proof (Hc 1%nat ltac:(lia)) as H1. rewrite Nat.add_1_r in H1.
    exists (q_retried 1 (q_retried 0 st)). cbn [seq Nat.sub].
    rewrite query_attempts_retry by (done || (unfold max_retries; lia)).
    rewrite query_attempts_retry by (done || (unfold max_retries; lia)).
    split_and!; [done|simpl; lia|done].
Qed.

End QueryFacts.

(** How a page of [get_existing_records] can fail, from any state with
    [has_more] set and whatever was fetched before. A status other than 200
    makes the function return the empty dict: what it had fetched is lost.
    Three connection errors in a row make it return what it had fetched.
    Any other exception, and a body that is no JSON object, escape. *)
Theorem get_existing_records_failures
    (sess : nat → Answer (option QueryResult)) (st : QState) (fuel : nat) :
  q_has_more st = true →
  (∀ k code body,
     (k < max_retries)%nat →
     (∀ i, (i < k)%nat → sess (n_clock (q_world st) + i)%nat = ConnectionError) →
     sess (n_clock (q_world st) + k)%nat = Status code body →
     code ≠ 200 →
     query_loop sess (S fuel) st = Some (Returned ∅))
  ∧ ((∀ i, (i < max_retries)%nat →
           sess (n_clock (q_world st) + i)%nat = ConnectionError) →
     query_loop sess (S fuel) st = Some (Returned (all_records st)))
  ∧ (∀ k,
       (k < max_retries)%nat →
       (∀ i, (i < k)%nat → sess (n_clock (q_world st) + i)%nat = ConnectionError) →
       sess (n_clock (q_world st) + k)%nat = OtherError
       ∨ sess (n_clock (q_world st) + k)%nat = Status 200 None →
       query_loop sess (S fuel) st = Some Raised).
Proof.
  intros Hm. split_and!.
  - intros k code body Hk Hc Hs Hne.
    destruct (query_attempts_after sess k st Hk Hc) as (st' & _ & Hclk & E).
    cbn [query_loop]. rewrite Hm, E.
    destruct (max_retries - k)%nat as [|m] eqn:Em; [unfold max_retries in *; lia|].
    cbn [seq query_attempts]. rewrite Hclk, Hs.
    by rewrite (proj2 (Z.eqb_neq code 200) Hne).
  - intros Hc.
    destruct (query_attempts_after sess 2 st ltac:(unfold max_retries; lia)
                ltac:(intros; apply Hc; unfold max_retries; lia))
      as (st' & Ha & Hclk & E).
    cbn [query_loop]. rewrite Hm, E. unfold max_retries.
    cbn [Nat.sub seq query_attempts]. rewrite Hclk.
    rewrite (Hc 2%nat ltac:(unfold max_retries; lia)).
    unfold max_retries. cbn [Nat.sub Nat.ltb Nat.leb].
    destruct fuel; cbn [query_loop q_has_more all_records]; by rewrite Ha.
  - intros k Hk Hc Hs.
    destruct (query_attempts_after sess k st Hk Hc) as (st' & _ & Hclk & E).
    cbn [query_loop]. rewrite Hm, E.
    destruct (max_retries - k)%nat as [|m] eqn:Em; [unfold max_retries in *; lia|].
    cbn [seq query_attempts]. rewrite Hclk.
    destruct Hs as [-> | ->]; done.
Qed.

Lemma get_existing_records_failures_witness :
  query_loop page_then_403 2 (mkQState ∅ true None n_fresh) = Some (Returned ∅)
  ∧ query_loop page_then_down 1 fetched_one
    = Some (Returned {[ "42"%string := a_record ]}).
Proof.
  split.
  - vm_compute. reflexivity.
  - destruct (get_existing_records_failures page_then_down fetched_one 0 eq_refl)
      as (_ & H & _).
    apply H. intros i Hi. unfold page_then_down. simpl.
    destruct (Nat.ltb_spec (1 + i) 1); [lia|done].
Defined.

(** Nothing bounds the pages of [get_existing_records]: against a server
    that answers every query with status 200 and [has_more] set, the loop
    never ends, whatever bound it is run under. *)
Theorem get_existing_records_unbounded
    (sess : nat → Answer (option QueryResult)) (fuel : nat) (w : NWorld) :
  (∀ n, ∃ data, sess n = Status 200 (Some data) ∧ has_more data = true) →
  get_existing_records sess fuel w = None.
Proof.
  intros Hs. unfold get_existing_records.
  generalize (mkQState ∅ true None w) (eq_refl : q_has_more (mkQState ∅ true None w) = true).
  induction fuel as [|fuel IH]; intros st Hm; cbn [query_loop]; rewrite Hm; [done|].
  unfold max_retries. cbn [seq query_attempts].
  destruct (Hs (n_clock (q_world st))) as (data & -> & Hd). cbn.
  by apply IH.
Qed.

Lemma get_existing_records_unbounded_witness :
  get_existing_records endless 1000 n_fresh = None.
Proof.
  apply (get_existing_records_unbounded endless 1000 n_fresh).
  intros n. exists one_page. done.
Defined.

(** *** Formatting and inserting rows *)

Lemma prefix_length (n : nat) (s : string) : (String.length (prefix n s) ≤ n)%nat.
Proof.
  revert s. induction n as [|n IH]; intros s.
  - destruct s; cbv [prefix String.length]; lia.
  - destruct s as [|a s]; [cbv [prefix String.length]; lia|].
    change (prefix (S n) (String a s)) with (String a (prefix n s)).
    cbn [String.length]. specialize (IH s). lia.
Qed.

Section FormatFacts.
Context {F T : Type}.
Variable str_float : F → string.
Variable float_of_int : Z → F.
Variable int_of_float : F → option Z.
Variable float_of_str : string → option F.
Variable int_of_str : string → option Z.
Variable str_time : T → string.
Variable isoformat : T → string.

Local Abbreviation format :=
  (format_property str_float float_of_int int_of_float float_of_str int_of_str
     str_time isoformat).
Local Abbreviation build :=
  (build_properties str_float float_of_int int_of_float float_of_str int_of_str
     str_time isoformat).
Local Abbreviation insert sess :=
  (insert_row str_float float_of_int int_of_float float_of_str int_of_str
     str_time isoformat sess).

Lemma format_property_short name (value : Cell F T) type p :
  format name value type = Some p → short_text p.
Proof.
  unfold format_property.
  destruct value; try done; repeat case_bool_decide; try done;
    first [ intros [= <-]; unfold short_text; first [apply prefix_length | exact I]
          | intros (n & _ & ->)%fmap_Some; exact I ].
Qed.

Lemma format_property_null name type : format name NNull type = None.
Proof. done. Qed.

Lemma insert_rows_counts (sess : nat → Answer unit) (rows : list (NRow F T)) :
  ∀ acc : Counts F,
  let c := foldl (insert sess) acc rows in
  (success_count c + error_count c
   = success_count acc + error_count acc + length rows)%nat
  ∧ n_clock (i_world c) = (n_clock (i_world acc) + length rows)%nat
  ∧ posted c = posted acc ++ map build rows
  ∧ (success_count acc ≤ success_count c)%nat
  ∧ ((∀ i, (i < length rows)%nat →
           ∃ code, sess (n_clock (i_world acc) + i)%nat = Status code ()
                   ∧ code = 200) →
     success_count c = (success_count acc + length rows)%nat).
Proof.
  induction rows as [|row rows IH]; intros acc.
  - simpl. rewrite app_nil_r. split_and!; try lia; done.
  - cbn [foldl]. specialize (IH (insert sess acc row)).
    cbn zeta in IH. destruct IH as (H1 & H2 & H3 & H4 & H5).
    assert (n_clock (i_world (insert sess acc row))
            = S (n_clock (i_world acc))) as Hc.
    { unfold insert_row.
      destruct (sess (n_clock (i_world acc))) as [code []| |];
        [destruct (code =? 200)| |]; done. }
    assert (posted (insert sess acc row) = posted acc ++ [build row]) as Hp.
    { unfold insert_row.
      destruct (sess (n_clock (i_world acc))) as [code []| |];
        [destruct (code =? 200)| |]; done. }
    assert ((success_count (insert sess acc row)
             + error_count (insert sess acc row)
             = S (success_count acc + error_count acc))%nat
            ∧ (success_count acc ≤ success_count (insert sess acc row))%nat)
      as [Hs Hm].
    { unfold insert_row.
      destruct (sess (n_clock (i_world acc))) as [code []| |];
        [destruct (code =? 200)| |]; simpl; lia. }
    cbn zeta. cbn [length map]. split_and!.
    + lia.
    + lia.
    + rewrite H3, Hp, <- (assoc (++)). done.
    + lia.
    + intros Hall. rewrite H5.
      * destruct (Hall 0%nat ltac:(simpl; lia)) as (code & E & ->).
        rewrite Nat.add_0_r in E. unfold insert_row. rewrite E. simpl. lia.
      * intros i Hi. rewrite Hc.
        destruct (Hall (S i) ltac:(simpl; lia)) as (code & E & ->).
        exists 200. split; [|done]. rewrite <- E. f_equal. lia.
Qed.

Lemma build_rest_sublist {A B} (g : string * A → option B)
    (l : list (string * A)) :
  map fst (omap (λ field, (λ prop, (field.1, prop)) <$> g field) l)
  `sublist_of` map fst l.
Proof.
  induction l as [|e l IH]; [done|].
  cbn [omap list_omap map]. destruct (g e); cbn [fmap option_fmap option_map map fst].
  - by apply sublist_skip.
  - by apply sublist_cons.
Qed.

Lemma build_rest_elem (row : NRow F T) (e : string * Property F) :
  e ∈ omap (λ field,
        (λ prop, (field.1, prop)) <$> format field.1 (row field.1) field.2)
      other_fields →
  row e.1 ≠ NNull ∧ short_text e.2.
Proof.
  intros (field & _ & (prop & Hp & ->)%fmap_Some)%list_elem_of_omap.
  cbn [fst snd]. split.
  - intros Hn. by rewrite Hn, format_property_null in Hp.
  - by eapply format_property_short.
Qed.

Lemma subject_id_title (value : Cell F T) :
  ∃ t, default (PTitle "Untitled") (format "subject_id" value "title") = PTitle t
       ∧ (String.length t ≤ 2000)%nat
       ∧ (value = NNull → t = "Untitled"%string).
Proof.
  destruct value as [|z|f|s|t0].
  - exists "Untitled"%string. split; [reflexivity|]. split; [|reflexivity].
    apply Nat.leb_le. vm_compute. reflexivity.
  - eexists. split; [reflexivity|]. split; [apply prefix_length|discriminate].
  - eexists. split; [reflexivity|]. split; [apply prefix_length|discriminate].
  - eexists. split; [reflexivity|]. split; [apply prefix_length|discriminate].
  - eexists. split; [reflexivity|]. split; [apply prefix_length|discriminate].
Qed.

End FormatFacts.

(** The properties posted for a row always start with a [subject_id] title,
    "Untitled" when the row has no subject id; every other property comes
    from a non-null cell of the row, under one of the eleven other field
    names, each at most once; and no title or rich text is longer than
    2000 characters. *)
Theorem build_properties_shape {F T : Type}
    (str_float : F → string) (float_of_int : Z → F)
    (int_of_float : F → option Z) (float_of_str : string → option F)
    (int_of_str : string → option Z) (str_time isoformat : T → string)
    (row : NRow F T) :
  ∃ t rest,
    build_properties str_float float_of_int int_of_float float_of_str
      int_of_str str_time isoformat row
    = ("subject_id"%string, PTitle t) :: rest
    ∧ (String.length t ≤ 2000)%nat
    ∧ (row "subject_id"%string = NNull → t = "Untitled"%string)
    ∧ Forall (λ e, row e.1 ≠ NNull ∧ short_text e.2) rest
    ∧ map fst rest `sublist_of` map fst other_fields
    ∧ NoDup ("subject_id"%string :: map fst rest).
Proof.
  unfold build_properties.
  set (rest := omap _ other_fields).
  assert (map fst rest `sublist_of` map fst other_fields) as Hsub
    by apply build_rest_sublist.
  assert (Forall (λ e, row e.1 ≠ NNull ∧ short_text e.2) rest) as Hall.
  { apply Forall_forall. intros e He. by eapply build_rest_elem. }
  assert (NoDup ("subject_id"%string :: map fst rest)) as Hnd.
  { apply NoDup_cons. split.
    - intros Hin. eapply elem_of_sublist in Hin; [|exact Hsub].
      revert Hin. by apply (bool_decide_unpack _).
    - eapply sublist_NoDup; [|exact Hsub].
      by apply (bool_decide_unpack _). }
  destruct (subject_id_title str_float float_of_int int_of_float float_of_str
              int_of_str str_time isoformat (row "subject_id"%string))
    as (t & Et & Hlen & Hnull).
  exists t, rest. rewrite Et.
  split; [reflexivity|]. split; [exact Hlen|]. split; [exact Hnull|].
  split; [exact Hall|]. split; [exact Hsub|exact Hnd].
Qed.

(** The insertion counts every row exactly once, as a success or as an
    error, and posts for every row, in order, whatever happened to the rows
    before it; when every request is answered with status 200 all rows are
    successes. Handed no frame (the collection had failed), it raises
    before any request. *)
Theorem insert_accounting {F T : Type}
    (str_float : F → string) (float_of_int : Z → F)
    (int_of_float : F → option Z) (float_of_str : string → option F)
    (int_of_str : string → option Z) (str_time isoformat : T → string)
    (sess : nat → Answer unit) (rows : list (NRow F T)) (w : NWorld) :
  insert_data_into_database str_float float_of_int int_of_float float_of_str
    int_of_str str_time isoformat sess None w = None
  ∧ ∃ c,
      insert_data_into_database str_float float_of_int int_of_float
        float_of_str int_of_str str_time isoformat sess (Some rows) w = Some c
      ∧ (success_count c + error_count c = length rows)%nat
      ∧ n_clock (i_world c) = (n_clock w + length rows)%nat
      ∧ posted c
        = map (build_properties str_float float_of_int int_of_float
                 float_of_str int_of_str str_time isoformat) rows
      ∧ ((∀ i, (i < length rows)%nat → sess (n_clock w + i)%nat = Status 200 ()) →
         success_count c = length rows ∧ error_count c = 0%nat).
Proof.
  split; [done|]. eexists. split; [done|].
  pose proof (insert_rows_counts str_float float_of_int int_of_float
                float_of_str int_of_str str_time isoformat sess rows
                (mkCounts 0 0 [] w)) as H.
  cbn zeta in H. cbn [success_count error_count posted i_world] in H.
  destruct H as (H1 & H2 & H3 & _ & H5).
  split_and!; [lia|done|done|].
  intros Hall.
  assert (success_count
            (foldl (insert_row str_float float_of_int int_of_float
                      float_of_str int_of_str str_time isoformat sess)
               (mkCounts 0 0 [] w) rows) = length rows) as Hs.
  { rewrite H5; [lia|]. intros i Hi. exists 200. split; [|done]. by apply Hall. }
  split; [done|lia].
Qed.

Lemma create_Some (sess : nat → Answer (option string)) w id w' :
  create sess w = Some (id, w') →
  sess (n_clock w) = Status 200 (Some id) ∧ w' = sent w.
Proof.
  unfold create. destruct (sess (n_clock w)) as [code [i|]| |]; try done.
  destruct (code =? 200) eqn:E; [|done].
  apply Z.eqb_eq in E as ->. by intros [= -> <-].
Qed.

Lemma create_None (sess : nat → Answer (option string)) w :
  create sess w = None → ∀ id, sess (n_clock w) ≠ Status 200 (Some id).
Proof.
  unfold create. intros H id E. rewrite E in H. done.
Qed.

(** The Notion run creates only what the configuration lacks, the page
    before the database, and inserts only after both ids are known: when it
    completes, each id is the configured one or the id of the answer (with
    status 200) to its creation request, every row of the frame was posted
    once after the creations and counted as a success or an error; when it
    exits with status 1, a creation was refused or there was no frame, and
    no request other than the creations was made. *)
Theorem main_outcomes {F T : Type}
    (str_float : F → string) (float_of_int : Z → F)
    (int_of_float : F → option Z) (float_of_str : string → option F)
    (int_of_str : string → option Z) (str_time isoformat : T → string)
    (sess : nat → Answer (option string))
    (parent_id database_id : option string)
    (df_analytics : option (list (NRow F T))) (w : NWorld) :
  let pages := if parent_id then 0%nat else 1%nat in
  let databases := if database_id then 0%nat else 1%nat in
  match main sess str_float float_of_int int_of_float float_of_str int_of_str
          str_time isoformat parent_id database_id df_analytics w with
  | Summary parent_page_id db_id counts =>
      match parent_id with
      | Some id => parent_page_id = id
      | None => sess (n_clock w) = Status 200 (Some parent_page_id)
      end
      ∧ match database_id with
        | Some id => db_id = id
        | None => sess (n_clock w + pages)%nat = Status 200 (Some db_id)
        end
      ∧ ∃ rows,
          df_analytics = Some rows
          ∧ (success_count counts + error_count counts = length rows)%nat
          ∧ length (posted counts) = length rows
          ∧ n_clock (i_world counts)
            = (n_clock w + pages + databases + length rows)%nat
  | Exit1 w' =>
      (n_clock w' ≤ n_clock w + pages + databases)%nat
      ∧ (df_analytics = None
         ∨ (parent_id = None
            ∧ ∀ id, sess (n_clock w) ≠ Status 200 (Some id))
         ∨ (database_id = None
            ∧ ∀ id, sess (n_clock w + pages)%nat ≠ Status 200 (Some id)))
  end.
Proof.
  intros pages databases. unfold main.
  assert (∀ p w1, create_page sess parent_id w = Some (p, w1) →
            n_clock w1 = (n_clock w + pages)%nat
            ∧ match parent_id with
              | Some id => p = id
              | None => sess (n_clock w) = Status 200 (Some p)
              end) as Hpage.
  { intros p w1. subst pages. destruct parent_id as [id|]; cbn [create_page].
    - intros [= <- <-]. split; [lia|done].
    - intros [E ->]%create_Some. cbn [sent n_clock]. split; [lia|done]. }
  destruct (create_page sess parent_id w) as [[p w1]|] eqn:Ep.
  - destruct (Hpage p w1 eq_refl) as [Hc1 Hp].
    assert (∀ d w2, create_database sess p database_id w1 = Some (d, w2) →
              n_clock w2 = (n_clock w1 + databases)%nat
              ∧ match database_id with
                | Some id => d = id
                | None => sess (n_clock w1) = Status 200 (Some d)
                end) as Hdb.
    { intros d w2. subst databases.
      destruct database_id as [id|]; cbn [create_database].
      - intros [= <- <-]. split; [lia|done].
      - intros [E ->]%create_Some. cbn [sent n_clock]. split; [lia|done]. }
    destruct (create_database sess p database_id w1) as [[d w2]|] eqn:Ed.
    + destruct (Hdb d w2 eq_refl) as [Hc2 Hd].
      destruct df_analytics as [rows|]; cbn [insert_data_into_database].
      * pose proof (insert_rows_counts str_float float_of_int int_of_float
                      float_of_str int_of_str str_time isoformat
                      (λ n, status_only (sess n)) rows
                      (mkCounts 0 0 [] w2)) as H.
        cbn zeta in H. cbn [success_count error_count posted i_world] in H.
        destruct H as (H1 & H2 & H3 & _ & _).
        split; [exact Hp|]. split.
        { destruct database_id; [exact Hd|]. by rewrite <- Hc1. }
        exists rows. split; [done|]. split; [lia|]. split.
        { rewrite H3. cbn [app]. by rewrite length_map. }
        lia.
      * split; [lia|]. by left.
    + destruct database_id as [id|]; cbn [create_database] in Ed; [done|].
      cbn [sent n_clock]. subst databases. split; [lia|].
      right; right. split; [done|]. rewrite <- Hc1. by apply create_None.
  - destruct parent_id as [id|]; cbn [create_page] in Ep; [done|].
    cbn [sent n_clock]. subst pages. split; [lia|].
    right; left. split; [done|]. by apply create_None.
Qed.

End NotionProofs.
